(** * A shallow embedding of the proof-checking kernel of aaronpuchert/logic

    The model follows the C++ sources of the kernel:
    - expressions, nodes and types (unnamed/part_010, unnamed/part_014),
    - the matcher [Substitution] (core/tree.cpp),
    - the rules and their validation (core/tree.cpp, second half),
    - theories, references and proof steps (core/theory.cpp).

    Pointers to nodes are modelled by the node's identity [node_id];
    iterators into a theory's [std::list] by the identity of the list cell
    (a slot number) or [None] for [end()].  Everything that can throw or
    has undefined behaviour returns a [result]. *)

From Stdlib Require Import ZArith List String Ascii Bool Lia DecimalNat.
From stdpp Require Import base gmap strings list.

Set Warnings "-register-all".
Local Open Scope string_scope.
Local Open Scope list_scope.

(** ** Errors and results *)

Inductive error : Type :=
  | Thrown (code : Z)                 (* [throw -1] *)
  | LogicError (what : string)        (* [std::logic_error] *)
  | TypeMismatch                      (* [TypeException] *)
  | DuplicateName (name : string)     (* [NamespaceException(DUPLICATE, name)] *)
  | Undefined (what : string)         (* undefined behaviour of the C++ code *)
  | StackExhausted.                   (* recursion deeper than the modelled stack *)

Inductive result (A : Type) : Type :=
  | Ok (a : A)
  | Err (e : error).
Arguments Ok {A} a.
Arguments Err {A} e.

Definition rbind {A B} (m : result A) (k : A -> result B) : result B :=
  match m with Ok a => k a | Err e => Err e end.

Notation "'let?' x ':=' m 'in' k" := (rbind m (fun x => k))
  (at level 200, x name, m at level 100, k at level 200).

(** ** Expressions (expression.hpp, base.hpp) *)

Inductive BuiltInVariant := UNDEFINED | TYPE | STATEMENT | RULE.
Inductive ConnectiveVariant := AND | OR | IMPL | EQUIV.
Inductive QuantifierVariant := EXISTS | FORALL.

(** A [LambdaType] keeps its argument types as [const_Expr_ptr]s, which may
    be null: [None] is a null pointer. *)
Inductive Expr : Type :=
  | BuiltInType (variant : BuiltInVariant)
  | LambdaType (args : list (option Expr)) (return_type : Expr)
  | AtomicExpr (atom : Node)
  | LambdaCallExpr (lambda : Node) (args : list Expr)
  | NegationExpr (expr : Expr)
  | ConnectiveExpr (variant : ConnectiveVariant) (first second : Expr)
  | QuantifierExpr (variant : QuantifierVariant) (predicate : Expr)
  | LambdaExpr (params : list Node) (definition : Expr)
with Node : Type :=
  | mkNode (node_id : nat) (type : Expr) (name : string).

Definition node_id (n : Node) : nat := match n with mkNode i _ _ => i end.
Definition node_type (n : Node) : Expr := match n with mkNode _ t _ => t end.
Definition node_name (n : Node) : string := match n with mkNode _ _ s => s end.

Definition statement : Expr := BuiltInType STATEMENT.

(** [x->getType() == BuiltInType::statement]: the built-in types are
    singletons, so pointer equality with them is equality of the variant. *)
Definition is_builtin (v : BuiltInVariant) (e : Expr) : bool :=
  match e, v with
  | BuiltInType UNDEFINED, UNDEFINED | BuiltInType TYPE, TYPE
  | BuiltInType STATEMENT, STATEMENT | BuiltInType RULE, RULE => true
  | _, _ => false
  end.

(** [std::transform(first, last, d_first, op)] writing into an existing
    vector: it overwrites the slots of [dst] one by one; a write past the
    end of [dst] is undefined behaviour ([None]). *)
Fixpoint transform_into {A} (dst src : list A) : option (list A) :=
  match src with
  | [] => Some dst
  | x :: src' =>
      match dst with
      | [] => None
      | _ :: dst' => match transform_into dst' src' with
                     | Some r => Some (x :: r)
                     | None => None
                     end
      end
  end.

(** [getType()] of every expression (part_010, part_014).  [None] is
    undefined behaviour, or (for a lambda expression) a [TypeException] of
    the [LambdaType] constructor.

    A lambda expression builds [LambdaType(types, expression->getType())],
    whose constructor first tests [return_type->getType() == type] and then
    [arg->getType() == type] for every slot of [types], dereferencing each.
    The return type of a body is the type of a node, a return type of a
    lambda type, [statement], [type] or a lambda type, so its own type is
    read off the body; the slot of a parameter [mkNode _ t _] is [t]. *)
Fixpoint getType (e : Expr) : option Expr :=
  match e with
  | BuiltInType _ | LambdaType _ _ => Some (BuiltInType TYPE)
  | AtomicExpr n => Some (node_type n)
  | LambdaCallExpr n _ =>
      (* static_pointer_cast<const LambdaType>(node->getType()) *)
      match node_type n with
      | LambdaType _ r => Some r
      | _ => None
      end
  | NegationExpr _ | ConnectiveExpr _ _ _ | QuantifierExpr _ _ => Some statement
  | LambdaExpr params body =>
      (* std::vector<const_Expr_ptr> types{const_Expr_ptr()};
         std::transform(params.begin(), params.end(), types.begin(), ...) *)
      match transform_into [None] (map (fun p => Some (node_type p)) params),
            getType body with
      | Some types, Some rt =>
          (* return_type->getType() *)
          let rt_type :=
            match body with
            | AtomicExpr (mkNode _ t _) => getType t
            | LambdaCallExpr (mkNode _ (LambdaType _ r) _) _ => getType r
            | _ => Some (BuiltInType TYPE)
            end in
          (* arg->getType() for the slots: [types{nullptr}] keeps its null
             slot when there is no parameter, which is then dereferenced *)
          let args_type :=
            match params with
            | [mkNode _ t _] => getType t
            | _ => None
            end in
          match rt_type, args_type with
          | Some rtt, Some at_ =>
              if is_builtin TYPE rtt && is_builtin TYPE at_
              then Some (LambdaType types rt) else None
          | _, _ => None
          end
      | _, _ => None
      end
  end.

(** ** The type comparator (unnamed/part_014) *)

(** A [Context] maps node pointers to expressions ([std::map]). *)
Abbreviation Context := (gmap nat Expr).

(** The flat description written by the comparator: the variant number of a
    built-in type, the markers [-1] and [-2] around a lambda type, and the
    node pointer of an atomic type. *)
Inductive token := TVariant (v : BuiltInVariant) | TOpen | TClose | TNode (id : nat).

#[global] Instance ConnectiveVariant_eq_dec : EqDecision ConnectiveVariant.
Proof. solve_decision. Defined.
#[global] Instance QuantifierVariant_eq_dec : EqDecision QuantifierVariant.
Proof. solve_decision. Defined.
#[global] Instance BuiltInVariant_eq_dec : EqDecision BuiltInVariant.
Proof. solve_decision. Defined.
#[global] Instance token_eq_dec : EqDecision token.
Proof. solve_decision. Defined.

(** The description of a type; [depth] bounds the nesting of context
    expansions, beyond which the C++ recursion would not return. *)
Fixpoint describe_with (depth : nat) (context : option Context) (e : Expr)
    {struct depth} : result (list token) :=
  (fix go (e : Expr) : result (list token) :=
     match e with
     | BuiltInType v => Ok [TVariant v]
     | LambdaType args rt =>
         let? r := go rt in
         let? a := (fix go_args (l : list (option Expr)) : result (list token) :=
                      match l with
                      | [] => Ok []
                      | None :: _ => Err (Undefined "null argument type")
                      | Some x :: l' => let? d := go x in
                                        let? ds := go_args l' in Ok (app d ds)
                      end) args in
         Ok (app [TOpen] (app r (app a [TClose])))
     | AtomicExpr n =>
         match context with
         | Some c =>
             match c !! node_id n with
             | Some def => match depth with
                           | 0 => Err StackExhausted
                           | S d => describe_with d context def
                           end
             | None => Ok [TNode (node_id n)]
             end
         | None => Ok [TNode (node_id n)]
         end
     | _ => Ok []          (* the Visitor's default: nothing written *)
     end) e.

Section Depth.
(** [fuel] bounds the depth of the recursions that are not structural in
    the C++ code (expanding context entries, pushing lambda bodies): a
    deeper recursion is reported as [StackExhausted]. *)
Variable fuel : nat.

(** [TypeComparator(context)(a, b)].  The pointer shortcut [a == b] is not
    modelled: when it fires, both descriptions are equal anyway, except for
    a lambda type holding a null argument slot, whose description is
    undefined. *)
Definition compare_types (context : option Context) (a b : Expr) : result bool :=
  match getType a, getType b with
  | Some ta, Some tb =>
      if is_builtin TYPE ta && is_builtin TYPE tb then
        let? da := describe_with fuel context a in
        let? db := describe_with fuel context b in
        Ok (bool_decide (da = db))
      else Err (LogicError "Trying to compare non-types in TypeComparator")
  | _, _ => Err (Undefined "getType")
  end.

End Depth.

(** ** The matcher [Substitution] (core/tree.cpp) *)

(** The members of a [Substitution] that change while it checks. *)
Record SubstState := {
  substitutions : Context;
  stack : list Expr;
  subst_stack : list (option (list Node));   (* [nullptr] is [None] *)
  offender : option (Expr * Expr) }.

Definition SM (A : Type) := SubstState -> result (A * SubstState).
Definition sret {A} (a : A) : SM A := fun st => Ok (a, st).
Definition sbind {A B} (m : SM A) (k : A -> SM B) : SM B :=
  fun st => match m st with Ok (a, st') => k a st' | Err e => Err e end.
Definition throw {A} (e : error) : SM A := fun _ => Err e.
Definition lift {A} (r : result A) : SM A :=
  fun st => match r with Ok a => Ok (a, st) | Err e => Err e end.

Notation "'let*' x ':=' m 'in' k" := (sbind m (fun x => k))
  (at level 200, x name, m at level 100, k at level 200).
Notation "m ;;; k" := (sbind m (fun _ : unit => k)) (at level 100, right associativity).

Definition with_subs (st : SubstState) (c : Context) : SubstState :=
  {| substitutions := c; stack := stack st; subst_stack := subst_stack st;
     offender := offender st |}.

(** [have(node)] *)
Definition have (n : Node) : SM (option Expr) :=
  fun st => Ok (substitutions st !! node_id n, st).

(** [add(node, expr)]: an atomic [expr] that is itself substituted is
    replaced by its substitute; [std::map::insert] keeps an existing entry. *)
Definition add (n : Node) (e : Expr) : SM unit :=
  fun st =>
    let c := substitutions st in
    let e' := match e with
              | AtomicExpr a => match c !! node_id a with Some d => d | None => e end
              | _ => e
              end in
    let c' := match c !! node_id n with Some _ => c | None => <[node_id n := e']> c end in
    Ok (tt, with_subs st c').

Definition push_subst (p : option (list Node)) : SM unit :=
  fun st => Ok (tt, {| substitutions := substitutions st; stack := stack st;
                       subst_stack := p :: subst_stack st; offender := offender st |}).

Definition push_stack (e : Expr) : SM unit :=
  fun st => Ok (tt, {| substitutions := substitutions st; stack := e :: stack st;
                       subst_stack := subst_stack st; offender := offender st |}).

(** [stack.top()] *)
Definition top : SM Expr :=
  fun st => match stack st with
            | e :: _ => Ok (e, st)
            | [] => Err (Undefined "top of an empty stack")
            end.

(** [mismatch(expr, target_expr)] *)
Definition mismatch (e t : Expr) : SM unit :=
  fun st => Ok (tt, {| substitutions := substitutions st; stack := stack st;
                       subst_stack := subst_stack st; offender := Some (e, t) |}).

(** The [while] loop of [pop()]: [pop_params()] for every non-null entry on
    top of the parameter stack. *)
Fixpoint pop_params_loop (c : Context) (ss : list (option (list Node)))
    : Context * list (option (list Node)) :=
  match ss with
  | Some params :: ss' =>
      pop_params_loop (fold_left (fun c n => delete (node_id n) c) params c) ss'
  | _ => (c, ss)
  end.

(** [pop()] *)
Definition pop : SM unit :=
  fun st =>
    match subst_stack st with
    | Some _ :: _ =>
        Err (LogicError "Non-null parameter list pointer on substitutions stack in pop")
    | [] => Err (Undefined "top of an empty stack")
    | None :: ss =>
        let (c, ss') := pop_params_loop (substitutions st) ss in
        match stack st with
        | _ :: stk => Ok (tt, {| substitutions := c; stack := stk; subst_stack := ss';
                                 offender := offender st |})
        | [] => Err (Undefined "pop of an empty stack")
        end
    end.

(** The loop of [push] binding the lambda's parameters to the call's
    arguments. *)
Fixpoint add_args (params : list Node) (args : list Expr) : SM unit :=
  match params, args with
  | [], _ => sret tt
  | p :: ps, a :: als => add p a ;;; add_args ps als
  | _ :: _, [] => throw (Undefined "argument iterator past the end")
  end.

(** The loop of [visit(const LambdaExpr * )] binding the template's
    parameters to the target's parameters, wrapped as atomic expressions. *)
Fixpoint add_params (params tparams : list Node) : SM unit :=
  match params, tparams with
  | [], _ => sret tt
  | p :: ps, q :: qs => add p (AtomicExpr q) ;;; add_params ps qs
  | _ :: _, [] => throw (Undefined "parameter iterator past the end")
  end.

(** [push(expr)]: the only place where substitution happens.  [depth]
    bounds the recursive pushes of lambda bodies. *)
Fixpoint push (depth : nat) (e : Expr) {struct depth} : SM unit :=
  match e with
  | AtomicExpr a =>
      let* d := have a in
      match d with
      | Some def => push_subst None ;;; push_stack def
      | None => push_subst None ;;; push_stack e
      end
  | LambdaCallExpr f args =>
      let* d := have f in
      match d with
      | Some (AtomicExpr _) => throw (Thrown (-1))       (* TODO: throw -1; *)
      | Some (LambdaExpr params body) =>
          push_subst (Some params) ;;;
          add_args params args ;;;
          match depth with
          | 0 => throw StackExhausted
          | S d' => push d' body
          end
      | Some _ => throw (Undefined "static_pointer_cast<const LambdaExpr> of a non-lambda")
      | None => push_subst None ;;; push_stack e
      end
  | _ => push_subst None ;;; push_stack e
  end.

Section Visit.
(** [fuel]: the depth bound of [push] and of the type comparator. *)
Variable fuel : nat.

(** The [visit] functions of [Substitution]: they walk the target and
    compare it with the template expression on top of the stack. *)
Fixpoint visit (t : Expr) : SM unit :=
  match t with
  | AtomicExpr n =>
      let* e := top in
      match e with
      | AtomicExpr m => if Nat.eqb (node_id m) (node_id n) then sret tt else mismatch e t
      | _ => mismatch e t
      end
  | LambdaCallExpr f targs =>
      let* e := top in
      match e with
      | LambdaCallExpr g args =>
          if Nat.eqb (node_id g) (node_id f) then
            (fix go (ts es : list Expr) : SM unit :=
               match ts, es with
               | t1 :: ts', e1 :: es' => push fuel e1 ;;; visit t1 ;;; pop ;;; go ts' es'
               | _, _ => sret tt
               end) targs args
          else mismatch e t
      | _ => mismatch e t
      end
  | NegationExpr ti =>
      let* e := top in
      match e with
      | NegationExpr ei => push fuel ei ;;; visit ti ;;; pop
      | _ => mismatch e t
      end
  | ConnectiveExpr v t1 t2 =>
      let* e := top in
      match e with
      | ConnectiveExpr w e1 e2 =>
          if bool_decide (w = v) then
            push fuel e1 ;;; visit t1 ;;; pop ;;;
            push fuel e2 ;;; visit t2 ;;; pop
          else mismatch e t
      | _ => mismatch e t
      end
  | QuantifierExpr v tp =>
      let* e := top in
      match e with
      | QuantifierExpr w ep =>
          if bool_decide (w = v) then push fuel ep ;;; visit tp ;;; pop
          else mismatch e t
      | _ => mismatch e t
      end
  | LambdaExpr tparams tdef =>
      let* e := top in
      match e with
      | LambdaExpr params def =>
          (* TypeComparator compare;
             compare(expression->getType().get(), expr_lambda->getType().get()) *)
          let* same := lift (match getType t, getType e with
                             | Some a, Some b => compare_types fuel None a b
                             | _, _ => Err (Undefined "getType")
                             end) in
          if same then
            push_subst (Some params) ;;;
            add_params params tparams ;;;
            push fuel def ;;; visit tdef ;;; pop
          else mismatch e t
      | _ => mismatch e t
      end
  | BuiltInType _ | LambdaType _ _ => sret tt     (* the Visitor's default *)
  end.

(** [Substitution::check(target, context)].  The stacks are empty when a
    check starts: every [push] is matched by a [pop]. *)
Definition check (expr target : Expr) (context : Context) : result bool :=
  match (push fuel expr ;;; visit target ;;; pop)
          {| substitutions := context; stack := []; subst_stack := [];
             offender := None |} with
  | Ok (_, st) => Ok (match offender st with None => true | Some _ => false end)
  | Err e => Err e
  end.

End Visit.

(** ** Rules (core/tree.cpp, second half) and theories (core/theory.cpp) *)

Inductive RuleBody : Type :=
  | Tautology (tautology : Expr)
  | EquivalenceRule (statement1 statement2 : Expr)
  | DeductionRule (premisses : list Expr) (conclusion : Expr).

(** A rule is a node of type [rule] with its parameter list. *)
Record Rule := mkRule { rule_node : Node; rule_params : list Node; rule_body : RuleBody }.

(** An iterator into a theory of the chain [this, parent, parent's
    parent, ...]: the level of the theory in the chain and the list cell
    ([None] is [end()]). *)
Record iterator := mkIterator { it_level : nat; it_slot : option nat }.

(** [Reference]: the theory pointer (a level of the chain; [None] when it
    is null or never assigned) and the iterator. *)
Record Reference := mkReference { ref_theory : option nat; ref : iterator }.

(** [ProofStep]: the rule, the context built by the constructor and the
    referenced statements. *)
Record ProofStep := mkProofStep {
  ps_rule : Rule; ps_subst : Context; ps_refs : list Reference }.

(** The objects of a theory: plain nodes (types, individuals, predicates)
    with their optional definition, statements with their optional proof,
    and rules. *)
Inductive Object : Type :=
  | ONode (n : Node) (definition : option Expr)
  | OStatement (n : Node) (definition : Expr) (proof : option ProofStep)
  | ORule (r : Rule).

Definition object_node (o : Object) : Node :=
  match o with ONode n _ | OStatement n _ _ => n | ORule r => rule_node r end.
Definition object_type (o : Object) : Expr := node_type (object_node o).
Definition object_name (o : Object) : string := node_name (object_node o).

(** [getDefinition()]; a rule has none (a null pointer). *)
Definition object_definition (o : Object) : option Expr :=
  match o with ONode _ d => d | OStatement _ d _ => Some d | ORule _ => None end.

(** [Theory]: the list of objects (list cell, object), the name index and
    the iterator [parent_object] into the parent theory. *)
Record Theory := mkTheory {
  objects : list (nat * Object);
  name_space : gmap string nat;
  parent_object : option nat }.

(** A theory together with its ancestors: [this_theory :: parent :: ...]. *)
Abbreviation Chain := (list Theory).

Fixpoint lookup_slot (s : nat) (l : list (nat * Object)) : option Object :=
  match l with
  | [] => None
  | (s', o) :: l' => if Nat.eqb s s' then Some o else lookup_slot s l'
  end.

(** [*it] *)
Definition deref (ch : Chain) (it : iterator) : result Object :=
  match ch !! it_level it with
  | None => Err (Undefined "theory pointer")
  | Some th =>
      match it_slot it with
      | None => Err (Undefined "dereferencing end()")
      | Some s => match lookup_slot s (objects th) with
                  | Some o => Ok o
                  | None => Err (Undefined "invalid iterator")
                  end
      end
  end.

(** [static_pointer_cast<const Statement>( *ref)->getDefinition()]; the
    matcher dereferences a null target. *)
Definition premise_expr (ch : Chain) (r : Reference) : result Expr :=
  let? o := deref ch (ref r) in
  match object_definition o with
  | Some e => Ok e
  | None => Err (Undefined "null target expression")
  end.

(** [a && b] on results, evaluated left to right. *)
Definition rand (a b : result bool) : result bool :=
  match a with Ok true => b | Ok false => Ok false | Err e => Err e end.
(** [a || b] on results, evaluated left to right. *)
Definition ror (a b : result bool) : result bool :=
  match a with Ok true => Ok true | Ok false => b | Err e => Err e end.

Section Validate.
Variable fuel : nat.
Variable ch : Chain.

(** The [std::mismatch] of [DeductionRule::validate_pass]: premise [i]
    against reference [i], stopping at the first one that fails. *)
Fixpoint premisses_match (context : Context) (prems : list Expr)
    (refs : list Reference) : result bool :=
  match prems, refs with
  | p :: ps, r :: rs =>
      let? e := premise_expr ch r in
      let? ok := check fuel p e context in
      if ok then premisses_match context ps rs else Ok false
  | _, _ => Ok true
  end.

(** [Rule::validate], i.e. [validate_pass] of the three kinds of rules. *)
Definition validate (rule : Rule) (context : Context) (statements : list Reference)
    (statement : Expr) : result bool :=
  match rule_body rule with
  | Tautology s =>
      if negb (Nat.eqb (length statements) 0) then Ok false
      else check fuel s statement context
  | EquivalenceRule s1 s2 =>
      match statements with
      | [r] =>
          let? alt := premise_expr ch r in
          ror (rand (check fuel s1 alt context) (check fuel s2 statement context))
              (rand (check fuel s1 statement context) (check fuel s2 alt context))
      | _ => Ok false
      end
  | DeductionRule prems concl =>
      if negb (Nat.eqb (length statements) (length prems)) then Ok false
      else rand (premisses_match context prems statements)
                (check fuel concl statement context)
  end.

(** [ProofStep::proves(statement)] *)
Definition proves (ps : ProofStep) (stmt : Expr) : result bool :=
  validate (ps_rule ps) (ps_subst ps) (ps_refs ps) stmt.

(** The lambda of [Theory::verify]. *)
Definition verify_object (o : Object) : result bool :=
  if is_builtin STATEMENT (object_type o) then
    match o with
    | OStatement _ d (Some ps) => proves ps d
    | _ => Ok true
    end
  else Ok true.

Fixpoint all_of {A} (f : A -> result bool) (l : list A) : result bool :=
  match l with
  | [] => Ok true
  | x :: l' => match f x with
               | Ok true => all_of f l'
               | Ok false => Ok false
               | Err e => Err e
               end
  end.

(** [Theory::verify()] of the first theory of the chain. *)
Definition verify : result bool :=
  match ch with
  | [] => Err (Undefined "no theory")
  | th :: _ => all_of (fun so => verify_object (snd so)) (objects th)
  end.

End Validate.

(** The loop of the [ProofStep] constructor: compare the type of each rule
    parameter with the type of its substitute, under the context built so
    far, and record the substitute. *)
Fixpoint build_context (fuel : nat) (params : list Node) (var_list : list Expr)
    (subst : Context) : result Context :=
  match params with
  | [] => Ok subst
  | p :: ps =>
      match var_list with
      | [] => Err (Undefined "argument iterator past the end")
      | s :: ss =>
          match getType s with
          | None => Err (Undefined "getType")
          | Some st =>
              let? ok := compare_types fuel (Some subst) (node_type p) st in
              if ok then
                let subst' := match subst !! node_id p with
                              | Some _ => subst
                              | None => <[node_id p := s]> subst
                              end in
                build_context fuel ps ss subst'
              else Err TypeMismatch
          end
      end
  end.

(** [ProofStep::ProofStep(rule, var_list, statement_list)] *)
Definition make_proofstep (fuel : nat) (rule : Rule) (var_list : list Expr)
    (statement_list : list Reference) : result ProofStep :=
  if negb (is_builtin RULE (node_type (rule_node rule))) then Err TypeMismatch
  else
    let? subst := build_context fuel (rule_params rule) var_list ∅ in
    Ok (mkProofStep rule subst statement_list).

(** ** Theories: [add] and [get] (core/theory.cpp) *)

(** A list cell not used by the theory yet (a fresh [std::list] node). *)
Definition fresh_slot (l : list (nat * Object)) : nat := S (list_max (map fst l)).

Fixpoint position_of (s : nat) (l : list (nat * Object)) : option nat :=
  match l with
  | [] => None
  | (s', _) :: l' => if Nat.eqb s s' then Some 0
                     else match position_of s l' with Some i => Some (S i) | None => None end
  end.

(** [Theory::add(object, after)]: [objects.insert(++after, object)].
    [after] is a list cell or [None] for [end()]; incrementing [end()]
    gives [begin()] in the circular list of libstdc++, which is how the
    constructors insert into an empty theory. *)
Definition add_object (th : Theory) (o : Object) (after : option nat)
    : result (Theory * nat) :=
  match name_space th !! object_name o with
  | Some _ => Err (DuplicateName (object_name o))
  | None =>
      let pos := match after with
                 | None => Some 0
                 | Some a => match position_of a (objects th) with
                             | Some i => Some (S i)
                             | None => None
                             end
                 end in
      match pos with
      | None => Err (Undefined "invalid iterator")
      | Some i =>
          let s := fresh_slot (objects th) in
          let objs := take i (objects th) ++ (s, o) :: drop i (objects th) in
          let ns := if String.eqb (object_name o) "" then name_space th
                    else <[object_name o := s]> (name_space th) in
          Ok (mkTheory objs ns (parent_object th), s)
      end
  end.

(** [Theory::get(name)] walking up the chain of parents; the result of a
    miss is [end()] of the root theory. *)
Fixpoint get_from (level : nat) (ch : Chain) (name : string) : iterator :=
  match ch with
  | [] => mkIterator level None
  | th :: rest =>
      match name_space th !! name with
      | Some s => mkIterator level (Some s)
      | None => match rest with
                | [] => mkIterator level None
                | _ :: _ => get_from (S level) rest name
                end
      end
  end.

Definition get (ch : Chain) (name : string) : iterator := get_from 0 ch name.

(** ** References (core/theory.cpp) *)

Definition INT_MIN : Z := - 2 ^ 31.
Definition INT_MAX : Z := 2 ^ 31 - 1.

(** Position of an iterator in its list ([end()] is the length). *)
Definition it_position (th : Theory) (s : option nat) : option nat :=
  match s with
  | None => Some (length (objects th))
  | Some x => position_of x (objects th)
  end.

(** The iterator at a position. *)
Definition slot_at (th : Theory) (i : nat) : option nat :=
  match objects th !! i with Some (s, _) => Some s | None => None end.

(** [--ref] on positions of a list of [len] cells: [--begin()] is [end()]
    in libstdc++'s circular list (as in [desc_walk]), so [n] decrements
    from [p] never fail. *)
Fixpoint back_steps (len p n : nat) : nat :=
  match n with
  | 0 => p
  | S n' => back_steps len (match p with 0 => len | S p' => p' end) n'
  end.

(** [while (diff--) --ref;]: the test reads [diff] before the decrement, so
    a positive [diff] decrements [ref] [diff] times; a negative one counts
    down to [INT_MIN], where [diff--] overflows.  [None] is undefined
    behaviour. *)
Definition back_loop (len p : nat) (diff : Z) : option nat :=
  if Z.ltb diff 0 then None
  else Some (back_steps len p (Z.to_nat diff)).

(** Step an iterator of the chain back [diff] times. *)
Definition step_back (ch : Chain) (it : iterator) (diff : Z) : option iterator :=
  if Z.eqb diff 0 then Some it else
  match ch !! it_level it with
  | None => None
  | Some th =>
      match it_position th (it_slot it) with
      | None => None
      | Some p => match back_loop (length (objects th)) p diff with
                  | Some p' => Some (mkIterator (it_level it) (slot_at th p'))
                  | None => None
                  end
      end
  end.

(** [Reference::operator-=(diff)] *)
Definition sub_assign (ch : Chain) (r : Reference) (diff : Z) : option Reference :=
  match step_back ch (ref r) diff with
  | Some it => Some (mkReference (ref_theory r) it)
  | None => None
  end.

(** [operator-(const Reference& a, int back)]: a copy of [a], wound back. *)
Definition ref_minus (ch : Chain) (a : Reference) (back : Z) : option Reference :=
  sub_assign ch a back.

(** *** Parsing a reference descriptor *)

Definition is_space (c : ascii) : bool :=
  match c with
  | " "%char | "009"%char | "010"%char | "011"%char | "012"%char | "013"%char => true
  | _ => false
  end.

Fixpoint skip_ws (s : string) : string :=
  match s with
  | String c s' => if is_space c then skip_ws s' else s
  | EmptyString => EmptyString
  end.

Definition digit_value (c : ascii) : option Z :=
  let n := nat_of_ascii c in
  if Nat.leb 48 n && Nat.leb n 57 then Some (Z.of_nat (n - 48)) else None.

(** The digits at the front of [s], accumulated onto [acc]; the flag says
    whether there was one. *)
Fixpoint read_digits (s : string) (acc : Z) (any : bool) : Z * bool :=
  match s with
  | String c s' => match digit_value c with
                   | Some d => read_digits s' (acc * 10 + d) true
                   | None => (acc, any)
                   end
  | EmptyString => (acc, any)
  end.

(** [std::istringstream(s) >> i] for an [int i]: leading white space, an
    optional sign and the digits; without digits the stream fails and
    stores 0, out of range it stores the nearest bound. *)
Definition parse_int (s : string) : Z :=
  let s1 := skip_ws s in
  let '(neg, s2) := match s1 with
                    | String "-"%char r => (true, r)
                    | String "+"%char r => (false, r)
                    | _ => (false, s1)
                    end in
  let '(v, any) := read_digits s2 0 false in
  if negb any then 0%Z
  else Z.max INT_MIN (Z.min INT_MAX (if neg then (- v)%Z else v)).

(** [description.find(c)] ([None] is [npos]). *)
Fixpoint find_char (c : ascii) (s : string) : option nat :=
  match s with
  | EmptyString => None
  | String c' s' => if Ascii.eqb c c' then Some 0
                    else match find_char c s' with Some i => Some (S i) | None => None end
  end.

(** [s.substr(pos, n)] and [s.substr(pos)] *)
Definition substr (pos n : nat) (s : string) : string := String.substring pos n s.
Definition substr_from (pos : nat) (s : string) : string :=
  String.substring pos (String.length s - pos) s.

(** The loop of the [parent^<n>] branch:
    [while (level--) { theory = theory->parent; ref = theory->parent_object; }].
    [rest] are the ancestors of the theory at level [cur]. *)
Fixpoint up_loop (rest : Chain) (cur : nat) (it : iterator) (level : Z)
    : option (nat * iterator) :=
  if Z.eqb level 0 then Some (cur, it)
  else if Z.eqb level INT_MIN then None
  else match rest with
       | [] => None                 (* theory is null: theory->parent_object *)
       | th :: rest' => up_loop rest' (S cur) (mkIterator (S (S cur)) (parent_object th))
                          (level - 1)
       end.

(** [Reference::Reference(this_theory, this_it, description)]: the chain
    starts with [this_theory]; [this_it] is a list cell of it.  In the
    branch of a name, the member [theory] is never assigned ([None]). *)
Definition parse_reference (ch : Chain) (this_it : option nat) (description : string)
    : option Reference :=
  (* int pos_tilde = description.find('~'); npos becomes -1 *)
  let pos_tilde := find_char "~"%char description in
  let '(base, diff) :=
    match pos_tilde with
    | Some 0 => (description, 0%Z)
    | Some i => (substr 0 i description, parse_int (substr_from (S i) description))
    | None => (description, parse_int description)   (* substr(0, npos), substr(0) *)
    end in
  let start : option (option nat * iterator) :=
    if String.eqb base "this" then Some (Some 0, mkIterator 0 this_it)
    else if String.eqb base "parent" then
      match ch with
      | th :: rest => Some (match rest with [] => None | _ :: _ => Some 1 end,
                            mkIterator 1 (parent_object th))
      | [] => None
      end
    else if String.eqb (substr 0 6 base) "parent^" then
      let level := parse_int (substr_from 7 base) in
      match up_loop (tail ch) 0 (mkIterator 0 this_it) level with
      | Some (lvl, it) => Some (Some lvl, it)
      | None => None
      end
    else Some (None, get ch base) in
  match start with
  | None => None
  | Some (th, it) => match step_back ch it diff with
                     | Some it' => Some (mkReference th it')
                     | None => None
                     end
  end.

(** ** Concrete inputs *)

Module Scenario.

Definition person := mkNode 1 (BuiltInType TYPE) "person".
Definition fritz := mkNode 2 (AtomicExpr person) "fritz".
Definition a := mkNode 10 statement "a".
Definition b := mkNode 11 statement "b".
Definition p := mkNode 20 statement "p".
Definition q := mkNode 21 statement "q".
Definition impl (x y : Expr) : Expr := ConnectiveExpr IMPL x y.

(** [(deductionrule ponens (list (statement a) (statement b)) (list (impl a b) a) b)] *)
Definition ponens : Rule :=
  mkRule (mkNode 30 (BuiltInType RULE) "ponens") [a; b]
    (DeductionRule [impl (AtomicExpr a) (AtomicExpr b); AtomicExpr a] (AtomicExpr b)).

(** [(equivrule double_negation (list (statement a)) (not (not a)) a)] *)
Definition double_negation : Rule :=
  mkRule (mkNode 31 (BuiltInType RULE) "double_negation") [a]
    (EquivalenceRule (NegationExpr (NegationExpr (AtomicExpr a))) (AtomicExpr a)).

Definition ctx_p : Context := {[10 := AtomicExpr p]}.
Definition ctx_pq : Context := {[10 := AtomicExpr p; 11 := AtomicExpr q]}.

Definition ref_at (s : nat) : Reference := mkReference (Some 0) (mkIterator 0 (Some s)).

(** Axioms [p] and [(impl p q)], and the lemma [q] by [ponens] with the
    given references. *)
Definition ponens_theory (refs : list Reference) : Theory :=
  mkTheory
    [(1, OStatement (mkNode 40 statement "") (AtomicExpr p) None);
     (2, OStatement (mkNode 41 statement "") (impl (AtomicExpr p) (AtomicExpr q)) None);
     (3, OStatement (mkNode 42 statement "") (AtomicExpr q)
           (Some (mkProofStep ponens ctx_pq refs)))]
    ∅ None.

(** Axiom [p] and the lemma [(not (not p))] by [double_negation]. *)
Definition double_negation_theory : Theory :=
  mkTheory
    [(1, OStatement (mkNode 40 statement "") (AtomicExpr p) None);
     (2, OStatement (mkNode 43 statement "")
           (NegationExpr (NegationExpr (AtomicExpr p)))
           (Some (mkProofStep double_negation ctx_p [ref_at 1])))]
    ∅ None.

(** A rule parameter [T] of type [type], a template predicate over [T] and
    a target predicate over [person]. *)
Definition T := mkNode 50 (BuiltInType TYPE) "T".
Definition x := mkNode 60 (AtomicExpr T) "x".
Definition y := mkNode 61 (AtomicExpr person) "y".
Definition template_forall : Expr := QuantifierExpr FORALL (LambdaExpr [x] (AtomicExpr q)).
Definition target_forall : Expr := QuantifierExpr FORALL (LambdaExpr [y] (AtomicExpr q)).
Definition ctx_T : Context := {[50 := AtomicExpr person]}.

(** A predicate parameter [P] and a node [g] returning a predicate. *)
Definition pred_type : Expr := LambdaType [Some (AtomicExpr person)] statement.
Definition P := mkNode 70 pred_type "P".
Definition g := mkNode 71 (LambdaType [Some (AtomicExpr person)] pred_type) "g".
Definition g_fritz : Expr := LambdaCallExpr g [AtomicExpr fritz].
Definition pred_rule : Rule :=
  mkRule (mkNode 32 (BuiltInType RULE) "pred_rule") [P]
    (Tautology (LambdaCallExpr P [AtomicExpr fritz])).
Definition lambda_q : Expr := LambdaExpr [y] (AtomicExpr q).
Definition subst_state (c : Context) : SubstState :=
  {| substitutions := c; stack := []; subst_stack := []; offender := None |}.

(** Two nodes in one theory, and a chain of three nested theories. *)
Definition two_nodes : Theory :=
  mkTheory [(1, ONode fritz None); (2, ONode y None)] {[ "fritz" := 1; "y" := 2 ]} None.
Definition root : Theory :=
  mkTheory [(1, ONode fritz None); (2, ONode y None)] {[ "fritz" := 1; "y" := 2 ]} None.
Definition middle : Theory := mkTheory [(5, ONode p None); (6, ONode q None)] ∅ (Some 2).
Definition inner : Theory := mkTheory [(7, ONode a None); (8, ONode b None)] ∅ (Some 6).

Definition empty_theory : Theory := mkTheory [] ∅ None.
Definition axiom_p : Object := OStatement (mkNode 44 statement "") (AtomicExpr p) None.

End Scenario.

(** The number of premise references a rule asks for. *)
Definition premise_count (r : RuleBody) : nat :=
  match r with
  | Tautology _ => 0
  | EquivalenceRule _ _ => 1
  | DeductionRule prems _ => length prems
  end.

(** The invariant of a theory's name index: the list cells are distinct and
    the index maps exactly the non-empty names of the objects to their
    cells. *)
Definition wf_theory (th : Theory) : Prop :=
  NoDup (map fst (objects th)) /\
  forall (n : string) (s : nat), name_space th !! n = Some s <->
    (n <> "" /\ exists o, (s, o) ∈ objects th /\ object_name o = n).

Definition is_ok {A} (r : result A) : Prop := match r with Ok _ => True | Err _ => False end.

(** [premisses_match] as a relation: premise [i] matches reference [i]. *)
Definition premise_matches (fuel : nat) (ch : Chain) (context : Context)
    (pr : Expr) (r : Reference) : Prop :=
  exists e, premise_expr ch r = Ok e /\ check fuel pr e context = Ok true.

(** ** More of the kernel *)

(** *** Writing an [int] ([stream << n]) *)

Fixpoint string_of_uint (d : Decimal.uint) : string :=
  match d with
  | Decimal.Nil => ""
  | Decimal.D0 d' => String "0" (string_of_uint d')
  | Decimal.D1 d' => String "1" (string_of_uint d')
  | Decimal.D2 d' => String "2" (string_of_uint d')
  | Decimal.D3 d' => String "3" (string_of_uint d')
  | Decimal.D4 d' => String "4" (string_of_uint d')
  | Decimal.D5 d' => String "5" (string_of_uint d')
  | Decimal.D6 d' => String "6" (string_of_uint d')
  | Decimal.D7 d' => String "7" (string_of_uint d')
  | Decimal.D8 d' => String "8" (string_of_uint d')
  | Decimal.D9 d' => String "9" (string_of_uint d')
  end.

(** The decimal digits of a non-negative [int], without leading zeros. *)
Definition string_of_nat (n : nat) : string := string_of_uint (Nat.to_uint n).

(** *** [Theory::Theory(std::initializer_list<Object_ptr>)] (core/theory.cpp) *)

(** The loop [for (Object_ptr node : objects) it = add(node, it);]; an
    exception of [add] leaves the constructor. *)
Fixpoint add_all (th : Theory) (it : option nat) (os : list Object) : result Theory :=
  match os with
  | [] => Ok th
  | o :: os' =>
      let? r := add_object th o it in
      add_all (fst r) (Some (snd r)) os'
  end.

(** [parent(nullptr)], and [it = begin()] of the empty list, which is its
    [end()]. *)
Definition theory_from_list (os : list Object) : result Theory :=
  add_all (mkTheory [] ∅ None) None os.

(** *** [ProofStep::operator[](node)] (core/theory.cpp) *)

(** [subst.find(node)]; a miss gives a null pointer ([None]). *)
Definition proofstep_at (ps : ProofStep) (n : Node) : option Expr :=
  ps_subst ps !! node_id n.

(** *** Constructors that check types *)

(** What a [TypeException] was expected: a type, or a text such as
    ["lambda expression"]. *)
Inductive Want : Type :=
  | WantExpr (e : Expr)
  | WantText (s : string).

(** [TypeException(type, want, where)]: the parts its message is made of,
    ["expected <want>, but got <type>[ in <where>]"]. *)
Record TypeException := mkTypeException {
  te_type : Expr; te_want : Want; te_where : string }.

(** The result of a constructor: the object, a [TypeException], or
    another error (an exception of another kind, undefined behaviour). *)
Inductive outcome (A : Type) : Type :=
  | Built (a : A)
  | Throws (te : TypeException)
  | Fails (e : error).
Arguments Built {A} a.
Arguments Throws {A} te.
Arguments Fails {A} e.

(** The [std::mismatch] of the [LambdaCallExpr] constructor with the
    context-free [TypeComparator]: the index, the argument's type and the
    parameter type of the first argument whose type differs.  [std::mismatch]
    with one end iterator reads past the end of the arguments when there
    are fewer of them; with more of them, [*mismatch.first] dereferences
    [pred_type->end()]. *)
Fixpoint call_mismatch (fuel : nat) (targs : list (option Expr)) (args : list Expr)
    (i : nat) : result (option (nat * Expr * Expr)) :=
  match targs, args with
  | [], [] => Ok None
  | [], _ :: _ => Err (Undefined "dereferencing pred_type->end()")
  | _ :: _, [] => Err (Undefined "argument iterator past the end")
  | None :: _, _ :: _ => Err (Undefined "null argument type")
  | Some t :: ts, a :: als =>
      match getType a with
      | None => Err (Undefined "getType")
      | Some ta =>
          let? same := compare_types fuel None t ta in
          if same then call_mismatch fuel ts als (S i) else Ok (Some (i, ta, t))
      end
  end.

(** [LambdaCallExpr::LambdaCallExpr(node, args)] (unnamed/part_010). *)
Definition make_call (fuel : nat) (n : Node) (args : list Expr) : outcome Expr :=
  match node_type n with
  | LambdaType targs _ =>
      match call_mismatch fuel targs args 0 with
      | Err e => Fails e
      | Ok None => Built (LambdaCallExpr n args)
      | Ok (Some (i, ta, t)) =>
          Throws (mkTypeException ta (WantExpr t) (String.append "argument " (string_of_nat (S i))))
      end
  | ty => Throws (mkTypeException ty (WantText "lambda expression") "")
  end.

(** The [std::find_if] of the [DeductionRule] constructor: the index and
    type of the first premiss whose type is not [statement]. *)
Fixpoint find_non_statement (prems : list Expr) (i : nat) : result (option (nat * Expr)) :=
  match prems with
  | [] => Ok None
  | p :: ps =>
      match getType p with
      | None => Err (Undefined "getType")
      | Some t => if is_builtin STATEMENT t then find_non_statement ps (S i)
                  else Ok (Some (i, t))
      end
  end.

(** [DeductionRule::DeductionRule(name, params, premisses, conclusion)]
    (core/tree.cpp); [Rule(name, params)] makes the node [id] of type
    [rule]. *)
Definition make_deduction_rule (id : nat) (name : string) (params : list Node)
    (prems : list Expr) (concl : Expr) : outcome Rule :=
  match find_non_statement prems 0 with
  | Err e => Fails e
  | Ok (Some (i, t)) =>
      Throws (mkTypeException t (WantExpr statement) (String.append "premiss number " (string_of_nat (S i))))
  | Ok None =>
      match getType concl with
      | None => Fails (Undefined "getType")
      | Some t =>
          if is_builtin STATEMENT t
          then Built (mkRule (mkNode id (BuiltInType RULE) name) params (DeductionRule prems concl))
          else Throws (mkTypeException t (WantExpr statement) "conclusion")
      end
  end.

(** [EquivalenceRule::EquivalenceRule(name, params, statement1, statement2)]
    (core/tree.cpp). *)
Definition make_equivalence_rule (id : nat) (name : string) (params : list Node)
    (s1 s2 : Expr) : outcome Rule :=
  match getType s1 with
  | None => Fails (Undefined "getType")
  | Some t1 =>
      if negb (is_builtin STATEMENT t1)
      then Throws (mkTypeException t1 (WantExpr statement) "first statement")
      else match getType s2 with
           | None => Fails (Undefined "getType")
           | Some t2 =>
               if negb (is_builtin STATEMENT t2)
               then Throws (mkTypeException t2 (WantExpr statement) "second statement")
               else Built (mkRule (mkNode id (BuiltInType RULE) name) params
                             (EquivalenceRule s1 s2))
           end
  end.

(** *** [Reference::getDescription(this_theory, this_it)] (core/theory.cpp) *)

#[global] Instance iterator_eq_dec : EqDecision iterator.
Proof. solve_decision. Defined.

(** The iterator at a position of the theory at a level. *)
Definition at_pos (th : Theory) (lv p : nat) : iterator := mkIterator lv (slot_at th p).

(** The inner loop
    [for (diff = 0; (level_head != level->end()) && (level_head != ref); ++diff) --level_head;]
    from the position [p] of the theory [th] at level [lv]: [diff] and the
    final [level_head].  Decrementing [begin()] gives [end()] in the
    circular list of libstdc++ (as incrementing [end()] gives [begin()] in
    [add_object]), which ends the loop. *)
Fixpoint desc_walk (th : Theory) (lv : nat) (r : iterator) (p : nat) : nat * iterator :=
  if Nat.leb (length (objects th)) p || bool_decide (at_pos th lv p = r)
  then (0, at_pos th lv p)
  else match p with
       | 0 => (1, mkIterator lv None)
       | S p' => let '(d, h) := desc_walk th lv r p' in (S d, h)
       end.

(** The outer loop over [level = this_theory, level->parent, ...]:
    [level_val] and [diff] when it stops.  [head] is [level_head] on
    entering the level [lv]; [rest] are the theory at that level and its
    ancestors. *)
Fixpoint desc_levels (rest : Chain) (lv : nat) (head : option nat) (r : iterator)
    : result (nat * nat) :=
  match rest with
  | [] => Err (Undefined "diff is never assigned")
  | th :: rest' =>
      match it_position th head with
      | None => Err (Undefined "invalid iterator")
      | Some p =>
          let '(diff, head') := desc_walk th lv r p in
          match rest' with
          | _ :: _ => if bool_decide (head' = r) then Ok (lv, diff)
                      else desc_levels rest' (S lv) (parent_object th) r
          | [] => Ok (lv, diff)
          end
      end
  end.

(** [getDescription]: the name if there is one, else
    [this~<diff>], [parent~<diff>] or [parent^<level>~<diff>]; an [int]
    counter that overflows is undefined. *)
Definition get_description (ch : Chain) (this_it : option nat) (r : Reference)
    : result string :=
  let? o := deref ch (ref r) in
  if negb (String.eqb (object_name o) "") then Ok (object_name o)
  else
    let? lvd := desc_levels ch 0 this_it (ref r) in
    let '(level_val, diff) := lvd in
    if Z.ltb INT_MAX (Z.of_nat level_val) || Z.ltb INT_MAX (Z.of_nat diff)
    then Err (Undefined "int overflow")
    else
      let base := if Nat.ltb 1 level_val then String.append "parent^" (string_of_nat level_val)
                  else if Nat.eqb level_val 1 then "parent" else "this" in
      Ok (String.append base (String "~" (string_of_nat diff))).

(** *** [operator-(const Reference& a, const Reference& b)] (core/theory.cpp) *)

(** [++it] on positions: [++end()] is [begin()] in libstdc++'s circular
    list. *)
Definition next_pos (th : Theory) (p : nat) : nat :=
  if Nat.eqb p (length (objects th)) then 0 else S p.

(** [for (it = a.ref; it != b.ref; ++it) ++diff;] from the position [p];
    the cycle through the list and its [end()] has [length + 1] cells, so
    a loop that has not met [b.ref] after that many steps never does. *)
Fixpoint fwd_count (th : Theory) (lv : nat) (target : iterator) (p : nat) (steps : nat)
    : option nat :=
  if bool_decide (at_pos th lv p = target) then Some 0
  else match steps with
       | 0 => None
       | S k => option_map S (fwd_count th lv target (next_pos th p) k)
       end.

(** The distance.  The theory pointers are compared first; [None] is a
    pointer that is null or never assigned, which we do not compare.  A
    loop that never meets [b.ref] does not terminate, and an [int] that
    overflows is undefined. *)
Definition ref_distance (ch : Chain) (a b : Reference) : result Z :=
  match ref_theory a, ref_theory b with
  | Some ta, Some tb =>
      if negb (Nat.eqb ta tb) then Ok (-1)%Z
      else
        match ch !! it_level (ref a) with
        | None => Err (Undefined "theory pointer")
        | Some th =>
            match it_position th (it_slot (ref a)) with
            | None => Err (Undefined "invalid iterator")
            | Some p =>
                match fwd_count th (it_level (ref a)) (ref b) p (length (objects th)) with
                | None => Err (Undefined "the loop never meets b.ref")
                | Some d => if Z.ltb INT_MAX (Z.of_nat d) then Err (Undefined "int overflow")
                            else Ok (Z.of_nat d)
                end
            end
        end
  | _, _ => Err (Undefined "theory pointer not assigned")
  end.

(** The names of a list of objects, without the anonymous ones. *)
Definition names_of (os : list Object) : list string :=
  List.filter (fun n => negb (String.eqb n "")) (map object_name os).

(** What [add_all] keeps: a well-formed root theory whose last slot is the
    insertion hint and whose names are distinct. *)
Definition list_inv (th : Theory) (it : option nat) : Prop :=
  wf_theory th /\ parent_object th = None /\ it = option_map fst (last (objects th)) /\
  NoDup (names_of (map snd (objects th))).

(** *** The matcher on expressions without lambdas *)

(** What [push] puts on the stack for a template expression whose calls
    are not substituted: the substitute of a substituted atom, the
    expression itself otherwise. *)
Definition resolve (c : Context) (e : Expr) : Expr :=
  match e with
  | AtomicExpr a => match c !! node_id a with Some d => d | None => e end
  | _ => e
  end.

(** The comparison [visit] makes between the template [e] on top of the
    stack and the target [t], with the sub-templates resolved as [push]
    resolves them.  Call arguments are compared pairwise up to the shorter
    list; a type in the target matches anything (the Visitor's default). *)
Fixpoint matches (c : Context) (e t : Expr) {struct t} : bool :=
  match t with
  | AtomicExpr n =>
      match e with AtomicExpr m => Nat.eqb (node_id m) (node_id n) | _ => false end
  | LambdaCallExpr f targs =>
      match e with
      | LambdaCallExpr g args =>
          Nat.eqb (node_id g) (node_id f) &&
          (fix go (ts es : list Expr) : bool :=
             match ts, es with
             | t1 :: ts', e1 :: es' => matches c (resolve c e1) t1 && go ts' es'
             | _, _ => true
             end) targs args
      | _ => false
      end
  | NegationExpr ti =>
      match e with NegationExpr ei => matches c (resolve c ei) ti | _ => false end
  | ConnectiveExpr v t1 t2 =>
      match e with
      | ConnectiveExpr w e1 e2 =>
          bool_decide (w = v) && matches c (resolve c e1) t1 && matches c (resolve c e2) t2
      | _ => false
      end
  | QuantifierExpr v tp =>
      match e with
      | QuantifierExpr w ep => bool_decide (w = v) && matches c (resolve c ep) tp
      | _ => false
      end
  | LambdaExpr _ _ => false
  | BuiltInType _ | LambdaType _ _ => true
  end.

(** No lambda expression anywhere in [e]. *)
Fixpoint lambda_free (e : Expr) : bool :=
  match e with
  | LambdaExpr _ _ => false
  | LambdaCallExpr _ args => forallb lambda_free args
  | NegationExpr x | QuantifierExpr _ x => lambda_free x
  | ConnectiveExpr _ a b => lambda_free a && lambda_free b
  | _ => true
  end.

(** [n] has no substitute in [c]. *)
Definition unbound_node (c : Context) (n : Node) : bool :=
  match c !! node_id n with None => true | Some _ => false end.

(** The called nodes of [e] (outside lambdas) have no substitute in [c]. *)
Fixpoint calls_unbound (c : Context) (e : Expr) : bool :=
  match e with
  | LambdaCallExpr f args => unbound_node c f && forallb (calls_unbound c) args
  | NegationExpr x | QuantifierExpr _ x => calls_unbound c x
  | ConnectiveExpr _ a b => calls_unbound c a && calls_unbound c b
  | _ => true
  end.

(** No atom and no called node of [e] (outside lambdas) has a substitute
    in [c]. *)
Fixpoint all_unbound (c : Context) (e : Expr) : bool :=
  match e with
  | AtomicExpr a => unbound_node c a
  | LambdaCallExpr f args => unbound_node c f && forallb (all_unbound c) args
  | NegationExpr x | QuantifierExpr _ x => all_unbound c x
  | ConnectiveExpr _ a b => all_unbound c a && all_unbound c b
  | _ => true
  end.

(** The instance of a template: every substituted atom replaced by its
    substitute. *)
Fixpoint inst (c : Context) (e : Expr) : Expr :=
  match e with
  | AtomicExpr a => match c !! node_id a with Some d => d | None => e end
  | LambdaCallExpr f args => LambdaCallExpr f (map (inst c) args)
  | NegationExpr x => NegationExpr (inst c x)
  | ConnectiveExpr v a b => ConnectiveExpr v (inst c a) (inst c b)
  | QuantifierExpr v x => QuantifierExpr v (inst c x)
  | _ => e
  end.

(** Induction on expressions with the hypothesis for every call argument. *)
Fixpoint Expr_ind' (P : Expr -> Prop)
    (Hb : forall v, P (BuiltInType v))
    (Hlt : forall a r, P (LambdaType a r))
    (Ha : forall n, P (AtomicExpr n))
    (Hc : forall f args, Forall P args -> P (LambdaCallExpr f args))
    (Hn : forall x, P x -> P (NegationExpr x))
    (Hcon : forall v a b, P a -> P b -> P (ConnectiveExpr v a b))
    (Hq : forall v x, P x -> P (QuantifierExpr v x))
    (Hl : forall ps d, P d -> P (LambdaExpr ps d))
    (e : Expr) {struct e} : P e :=
  match e with
  | BuiltInType v => Hb v
  | LambdaType a r => Hlt a r
  | AtomicExpr n => Ha n
  | LambdaCallExpr f args =>
      Hc f args ((fix go (l : list Expr) : Forall P l :=
                    match l with
                    | [] => @List.Forall_nil _ P
                    | x :: l' => @List.Forall_cons _ P x l' (Expr_ind' P Hb Hlt Ha Hc Hn Hcon Hq Hl x) (go l')
                    end) args)
  | NegationExpr x => Hn x (Expr_ind' P Hb Hlt Ha Hc Hn Hcon Hq Hl x)
  | ConnectiveExpr v a b => Hcon v a b (Expr_ind' P Hb Hlt Ha Hc Hn Hcon Hq Hl a)
                              (Expr_ind' P Hb Hlt Ha Hc Hn Hcon Hq Hl b)
  | QuantifierExpr v x => Hq v x (Expr_ind' P Hb Hlt Ha Hc Hn Hcon Hq Hl x)
  | LambdaExpr ps d => Hl ps d (Expr_ind' P Hb Hlt Ha Hc Hn Hcon Hq Hl d)
  end.

(** The matcher's state with another offender. *)
Definition with_off (st : SubstState) (o : option (Expr * Expr)) : SubstState :=
  {| substitutions := substitutions st; stack := stack st; subst_stack := subst_stack st;
     offender := o |}.

(** The substitutes of [c] call no substituted node. *)
Definition ctx_calls_ok (c : Context) : Prop :=
  map_Forall (fun _ d => calls_unbound c d = true) c.

(** [visit t] on a state whose parameter stack holds only null entries
    leaves the stacks as they are and records an offender exactly when the
    top does not match [t]. *)
Definition visit_ok (fuel : nat) (t : Expr) : Prop :=
  lambda_free t = true ->
  forall st x rest, stack st = x :: rest -> Forall (fun o => o = None) (subst_stack st) ->
  calls_unbound (substitutions st) x = true -> ctx_calls_ok (substitutions st) ->
  exists o, visit fuel t st = Ok (tt, with_off st o) /\
            (o = None <-> offender st = None /\ matches (substitutions st) x t = true).

(** Every substitute of [c] is lambda-free and mentions no substituted
    node. *)
Definition ctx_closed (c : Context) : Prop :=
  map_Forall (fun _ d => lambda_free d = true /\ all_unbound c d = true) c.

(** A template the matcher handles without lambdas. *)
Definition tmpl_ok (c : Context) (e : Expr) : Prop := lambda_free e = true /\ calls_unbound c e = true.

(** ** Helper lemmas *)

(** The type of the return type of a lambda, as [getType] reads it off the
    body, is [getType] of the return type. *)
Lemma lambda_return_type_type (body rt : Expr) :
  getType body = Some rt ->
  match body with
  | AtomicExpr (mkNode _ t _) => getType t
  | LambdaCallExpr (mkNode _ (LambdaType _ r) _) _ => getType r
  | _ => Some (BuiltInType TYPE)
  end = getType rt.
Proof.
  destruct body as [v|a r|[i t nm]|[i t nm] args|e|v e1 e2|v e|ps b]; simpl; intros H.
  - injection H as <-. reflexivity.
  - injection H as <-. reflexivity.
  - injection H as <-. reflexivity.
  - destruct t; try discriminate. injection H as <-. reflexivity.
  - injection H as <-. reflexivity.
  - injection H as <-. reflexivity.
  - injection H as <-. reflexivity.
  - repeat match type of H with
           | context[match ?x with _ => _ end] => destruct x
           end; try discriminate.
    injection H as <-. reflexivity.
Qed.


Lemma rand_true (x y : result bool) : rand x y = Ok true <-> x = Ok true /\ y = Ok true.
Proof. destruct x as [[|]|e]; simpl; intuition congruence. Qed.

Lemma ror_true (x y : result bool) :
  ror x y = Ok true <-> x = Ok true \/ (x = Ok false /\ y = Ok true).
Proof. destruct x as [[|]|e]; simpl; intuition congruence. Qed.

Lemma all_of_true {A} (f : A -> result bool) (l : list A) :
  all_of f l = Ok true <-> Forall (fun x => f x = Ok true) l.
Proof.
  induction l as [|x l IH]; simpl.
  - split; auto.
  - rewrite Forall_cons. destruct (f x) as [[|]|e]; rewrite ?IH; intuition congruence.
Qed.

Lemma premisses_match_true fuel ch context prems refs :
  length refs = length prems ->
  premisses_match fuel ch context prems refs = Ok true <->
  Forall2 (premise_matches fuel ch context) prems refs.
Proof.
  revert refs; induction prems as [|pr prems IH]; intros [|r refs] Hl; simpl in *;
    try discriminate.
  - split; constructor.
  - injection Hl as Hl. rewrite Forall2_cons. unfold premise_matches.
    destruct (premise_expr ch r) as [e|err]; simpl.
    + destruct (check fuel pr e context) as [[|]|err] eqn:Hck; simpl.
      * rewrite IH by exact Hl. split; [intros H; split; [eauto|exact H]|intros [_ H]; exact H].
      * split; [discriminate|]. intros [(e' & He' & Hc) _]. congruence.
      * split; [discriminate|]. intros [(e' & He' & Hc) _]. congruence.
    + split; [discriminate|]. intros [(e' & He' & Hc) _]. discriminate.
Qed.

(** ** C9: the type of a lambda expression *)

(** C9: [LambdaExpr::getType] starts from a vector holding one null
    pointer and transforms the parameters' types into it.  A lambda with
    one parameter (whose type and return type are types, as the [Node] and
    [LambdaType] constructors ensure) gets the argument list [[type of the
    parameter]]; for a lambda without parameters the null slot stays, and
    the [LambdaType] constructor dereferences it in [arg->getType()]; a
    lambda with two or more parameters writes past the end of the vector.
    Both are undefined behaviour ([None]), not the lambda type of the
    declared parameter types. *)
Theorem C9_lambda_getType (body : Expr) :
  (forall p1 rt, getType body = Some rt ->
     getType rt = Some (BuiltInType TYPE) ->
     getType (node_type p1) = Some (BuiltInType TYPE) ->
     getType (LambdaExpr [p1] body) = Some (LambdaType [Some (node_type p1)] rt)) /\
  getType (LambdaExpr [] body) = None /\
  (forall p1 p2 ps, getType (LambdaExpr (p1 :: p2 :: ps) body) = None).
Proof.
  split; [|split].
  - intros [i t nm] rt Hb Hrt Ht. simpl in Ht |- *. rewrite Hb.
    rewrite (lambda_return_type_type body rt Hb), Hrt, Ht. reflexivity.
  - simpl. destruct (getType body); [|reflexivity].
    destruct body as [| | [] | [? [] ?] | | | |]; try reflexivity;
      simpl; try (destruct (getType _); reflexivity).
  - intros p1 p2 ps. simpl. reflexivity.
Qed.

(** ** C1: verifying a theory *)

(** C1: [Theory::verify()] returns true exactly when every statement of
    the theory that has type [statement] and carries a proof is proved by
    it; a statement without proof (an axiom) contributes true whatever it
    says, and an object whose type is not [statement] is ignored. *)
Theorem C1_verify_iff (fuel : nat) (th : Theory) (rest : Chain) :
  (verify fuel (th :: rest) = Ok true <->
   Forall (fun so => forall n d ps, snd so = OStatement n d (Some ps) ->
             is_builtin STATEMENT (node_type n) = true ->
             proves fuel (th :: rest) ps d = Ok true) (objects th)) /\
  (forall n d, verify_object fuel (th :: rest) (OStatement n d None) = Ok true) /\
  (forall o, is_builtin STATEMENT (object_type o) = false ->
             verify_object fuel (th :: rest) o = Ok true).
Proof.
  split; [|split].
  - unfold verify. rewrite all_of_true. apply Forall_iff. intros [s o]; simpl.
    unfold verify_object, object_type. destruct o as [n d|n d [ps|]|r]; simpl.
    + split; [intros _ ? ? ? Heq; discriminate Heq|intros _].
      destruct (is_builtin _ _); reflexivity.
    + split.
      * intros H n' d' ps' Heq Hst. injection Heq as <- <- <-. rewrite Hst in H. exact H.
      * intros H. destruct (is_builtin STATEMENT (node_type n)) eqn:Hst; [|reflexivity].
        exact (H n d ps eq_refl Hst).
    + split; [intros _ ? ? ? Heq; discriminate Heq|intros _].
      destruct (is_builtin _ _); reflexivity.
    + split; [intros _ ? ? ? Heq; discriminate Heq|intros _].
      destruct (is_builtin _ _); reflexivity.
  - intros n d. unfold verify_object. destruct (is_builtin _ _); reflexivity.
  - intros o Ho. unfold verify_object. rewrite Ho. reflexivity.
Qed.

(** ** C3: deduction rules *)

(** C3: for a deduction rule and as many references as premise templates,
    [validate] is true exactly when premise [i] matches the statement of
    reference [i], for every [i] in order, and the conclusion matches; it
    stops at the first premise that does not match, whatever the later
    references and the conclusion are; and with modus ponens, the theory
    citing [(impl p q)] then [p] verifies while the one citing them in the
    other order does not. *)
Theorem C3_deduction_validate (fuel : nat) (ch : Chain) (nd : Node) (params : list Node)
    (prems : list Expr) (concl : Expr) (context : Context) (refs : list Reference) (c : Expr) :
  length refs = length prems ->
  (validate fuel ch (mkRule nd params (DeductionRule prems concl)) context refs c = Ok true <->
   Forall2 (premise_matches fuel ch context) prems refs /\
   check fuel concl c context = Ok true) /\
  (forall pre pr post pre_r r post_r e,
     prems = pre ++ pr :: post -> refs = pre_r ++ r :: post_r ->
     Forall2 (premise_matches fuel ch context) pre pre_r ->
     premise_expr ch r = Ok e -> check fuel pr e context = Ok false ->
     validate fuel ch (mkRule nd params (DeductionRule prems concl)) context refs c = Ok false) /\
  verify 10 [Scenario.ponens_theory [Scenario.ref_at 2; Scenario.ref_at 1]] = Ok true /\
  verify 10 [Scenario.ponens_theory [Scenario.ref_at 1; Scenario.ref_at 2]] = Ok false.
Proof.
  intros Hl. split; [|split; [|split]].
  - unfold validate; simpl. rewrite Hl, Nat.eqb_refl. simpl.
    rewrite rand_true, premisses_match_true by exact Hl. reflexivity.
  - intros pre pr post pre_r r post_r e -> -> Hpre Hr Hc.
    unfold validate; simpl. rewrite Hl, Nat.eqb_refl. simpl.
    assert (Hm : premisses_match fuel ch context (pre ++ pr :: post) (pre_r ++ r :: post_r)
                 = Ok false).
    { clear Hl. induction Hpre as [|p0 r0 pre0 pre_r0 (e0 & He0 & Hc0) Hrest IH]; simpl.
      - rewrite Hr. simpl. rewrite Hc. reflexivity.
      - rewrite He0. simpl. rewrite Hc0. exact IH. }
    rewrite Hm. reflexivity.
  - vm_compute. reflexivity.
  - vm_compute. reflexivity.
Qed.

Lemma C3_deduction_validate_witness :
  length [Scenario.ref_at 2; Scenario.ref_at 1] =
    length [Scenario.impl (AtomicExpr Scenario.a) (AtomicExpr Scenario.b); AtomicExpr Scenario.a] /\
  (validate 10 [Scenario.ponens_theory []] Scenario.ponens Scenario.ctx_pq
      [Scenario.ref_at 2; Scenario.ref_at 1] (AtomicExpr Scenario.q) = Ok true <->
   Forall2 (premise_matches 10 [Scenario.ponens_theory []] Scenario.ctx_pq)
      [Scenario.impl (AtomicExpr Scenario.a) (AtomicExpr Scenario.b); AtomicExpr Scenario.a]
      [Scenario.ref_at 2; Scenario.ref_at 1] /\
   check 10 (AtomicExpr Scenario.b) (AtomicExpr Scenario.q) Scenario.ctx_pq = Ok true).
Proof.
  split; [reflexivity|].
  apply (C3_deduction_validate 10 [Scenario.ponens_theory []]
           (mkNode 30 (BuiltInType RULE) "ponens") [Scenario.a; Scenario.b]
           [Scenario.impl (AtomicExpr Scenario.a) (AtomicExpr Scenario.b); AtomicExpr Scenario.a]
           (AtomicExpr Scenario.b) Scenario.ctx_pq [Scenario.ref_at 2; Scenario.ref_at 1]
           (AtomicExpr Scenario.q)).
  reflexivity.
Defined.

(** ** C2: equivalence rules *)

(** C2: for an equivalence rule with templates [s1], [s2] and one
    reference whose statement is [p], [validate] is true exactly when [s1]
    matches [p] and [s2] the conclusion [c], or [s1] matches [c] and [s2]
    matches [p].  The C++ code evaluates the first alternative first, so an
    exception raised there ends the validation: the two checks of the first
    alternative are assumed not to raise. *)
Theorem C2_equivalence_validate (fuel : nat) (ch : Chain) (nd : Node) (params : list Node)
    (s1 s2 : Expr) (context : Context) (r : Reference) (p c : Expr) :
  premise_expr ch r = Ok p ->
  is_ok (check fuel s1 p context) -> is_ok (check fuel s2 c context) ->
  (validate fuel ch (mkRule nd params (EquivalenceRule s1 s2)) context [r] c = Ok true <->
   (check fuel s1 p context = Ok true /\ check fuel s2 c context = Ok true) \/
   (check fuel s1 c context = Ok true /\ check fuel s2 p context = Ok true)).
Proof.
  intros Hp H1 H2. unfold validate; simpl. rewrite Hp; simpl.
  rewrite ror_true, !rand_true.
  destruct (check fuel s1 p context) as [[|]|e1]; [| |contradiction];
  destruct (check fuel s2 c context) as [[|]|e2]; try contradiction;
  simpl; intuition congruence.
Qed.

Lemma C2_equivalence_validate_witness :
  premise_expr [Scenario.double_negation_theory] (Scenario.ref_at 1) = Ok (AtomicExpr Scenario.p) /\
  (validate 10 [Scenario.double_negation_theory] Scenario.double_negation Scenario.ctx_p
     [Scenario.ref_at 1] (NegationExpr (NegationExpr (AtomicExpr Scenario.p))) = Ok true <->
   (check 10 (NegationExpr (NegationExpr (AtomicExpr Scenario.a))) (AtomicExpr Scenario.p)
      Scenario.ctx_p = Ok true /\
    check 10 (AtomicExpr Scenario.a) (NegationExpr (NegationExpr (AtomicExpr Scenario.p)))
      Scenario.ctx_p = Ok true) \/
   (check 10 (NegationExpr (NegationExpr (AtomicExpr Scenario.a)))
      (NegationExpr (NegationExpr (AtomicExpr Scenario.p))) Scenario.ctx_p = Ok true /\
    check 10 (AtomicExpr Scenario.a) (AtomicExpr Scenario.p) Scenario.ctx_p = Ok true)).
Proof.
  split; [reflexivity|].
  apply (C2_equivalence_validate 10 [Scenario.double_negation_theory]
           (mkNode 31 (BuiltInType RULE) "double_negation") [Scenario.a]
           (NegationExpr (NegationExpr (AtomicExpr Scenario.a))) (AtomicExpr Scenario.a)
           Scenario.ctx_p (Scenario.ref_at 1) (AtomicExpr Scenario.p)
           (NegationExpr (NegationExpr (AtomicExpr Scenario.p)))).
  - reflexivity.
  - vm_compute. exact I.
  - vm_compute. exact I.
Defined.

(** ** C10: the name index of a theory *)

Lemma fresh_slot_fresh (l : list (nat * Object)) : ~ In (fresh_slot l) (map fst l).
Proof.
  intros H. unfold fresh_slot in H.
  assert (Hle : Forall (fun k => k <= list_max (map fst l)) (map fst l))
    by (apply list_max_le; lia).
  rewrite Forall_forall in Hle. specialize (Hle _ (proj2 (list_elem_of_In _ _) H)). lia.
Qed.

Lemma elem_of_insert_mid {A} (l : list A) (i : nat) (x y : A) :
  y ∈ take i l ++ x :: drop i l <-> y = x \/ y ∈ l.
Proof.
  assert (Hl : y ∈ l <-> y ∈ take i l \/ y ∈ drop i l)
    by (rewrite <- elem_of_app, take_drop; reflexivity).
  rewrite elem_of_app, elem_of_cons, Hl. tauto.
Qed.

(** The theory that [add_object] builds, for any insertion position. *)
Lemma add_wf (th : Theory) (o : Object) (i : nat) :
  wf_theory th -> name_space th !! object_name o = None ->
  wf_theory (mkTheory
    (take i (objects th) ++ (fresh_slot (objects th), o) :: drop i (objects th))
    (if String.eqb (object_name o) "" then name_space th
     else <[object_name o := fresh_slot (objects th)]> (name_space th))
    (parent_object th)).
Proof.
  intros [Hnd Hns] Hn. set (f := fresh_slot (objects th)). split; simpl.
  - assert (Hp : map fst (take i (objects th) ++ (f, o) :: drop i (objects th))
                 ≡ₚ map fst ((f, o) :: objects th)).
    { apply Permutation_map. symmetry.
      transitivity ((f, o) :: take i (objects th) ++ drop i (objects th)).
      - rewrite take_drop. reflexivity.
      - apply Permutation_middle. }
    rewrite Hp. simpl. apply NoDup_cons. split; [|exact Hnd].
    rewrite list_elem_of_In. apply fresh_slot_fresh.
  - intros n s.
    destruct (String.eqb_spec (object_name o) "") as [He|Hne].
    + rewrite Hns. split.
      * intros [Hn' (o' & Hin & Hname)]. split; [exact Hn'|].
        exists o'. split; [apply elem_of_insert_mid; right; exact Hin|exact Hname].
      * intros [Hn' (o' & Hin & Hname)]. split; [exact Hn'|].
        apply elem_of_insert_mid in Hin as [Heq|Hin].
        -- injection Heq as -> ->. congruence.
        -- eauto.
    + destruct (decide (n = object_name o)) as [->|Hneq].
      * rewrite lookup_insert_eq. split.
        -- intros Heq. injection Heq as <-. split; [exact Hne|].
           exists o. split; [apply elem_of_insert_mid; left; reflexivity|reflexivity].
        -- intros [_ (o' & Hin & Hname)].
           apply elem_of_insert_mid in Hin as [Heq|Hin].
           ++ injection Heq as -> ->. reflexivity.
           ++ assert (Hs : name_space th !! object_name o = Some s)
                by (apply Hns; split; [exact Hne|eauto]).
              congruence.
      * rewrite lookup_insert_ne by congruence. rewrite Hns.
        split; intros [Hn' (o' & Hin & Hname)]; split; try exact Hn'.
        -- exists o'. split; [apply elem_of_insert_mid; right; exact Hin|exact Hname].
        -- apply elem_of_insert_mid in Hin as [Heq|Hin].
           ++ injection Heq as -> ->. congruence.
           ++ eauto.
Qed.

Lemma add_object_wf (th : Theory) (o : Object) (after : option nat) (th' : Theory) (s : nat) :
  wf_theory th -> add_object th o after = Ok (th', s) -> wf_theory th'.
Proof.
  intros Hwf Hadd. unfold add_object in Hadd.
  destruct (name_space th !! object_name o) eqn:Hn; [discriminate|].
  destruct after as [a0|].
  - destruct (position_of a0 (objects th)) as [j|]; [|discriminate].
    injection Hadd as <- _. exact (add_wf th o (S j) Hwf Hn).
  - injection Hadd as <- _. exact (add_wf th o 0 Hwf Hn).
Qed.

Lemma wf_no_empty_name (th : Theory) : wf_theory th -> name_space th !! "" = None.
Proof.
  intros [_ Hns]. destruct (name_space th !! "") as [s|] eqn:He; [|reflexivity].
  apply Hns in He as [He _]. congruence.
Qed.

Lemma get_from_some (lvl : nat) (ch : Chain) (name : string) (l s : nat) :
  get_from lvl ch name = mkIterator l (Some s) ->
  exists k th, l = lvl + k /\ ch !! k = Some th /\ name_space th !! name = Some s.
Proof.
  revert lvl; induction ch as [|th rest IH]; intros lvl H; simpl in H; [discriminate|].
  destruct (name_space th !! name) as [s'|] eqn:Hn.
  - injection H as -> ->. exists 0, th. split; [lia|]. split; [reflexivity|exact Hn].
  - destruct rest as [|th' rest']; [discriminate|].
    destruct (IH (S lvl) H) as (k & th0 & -> & Hk & Hs).
    exists (S k), th0. split; [lia|]. split; [exact Hk|exact Hs].
Qed.

Lemma get_from_empty_name (lvl : nat) (ch : Chain) :
  Forall wf_theory ch -> ch <> [] ->
  get_from lvl ch "" = mkIterator (lvl + length ch - 1) None.
Proof.
  revert lvl; induction ch as [|th rest IH]; intros lvl Hwf Hne; [congruence|].
  inversion Hwf as [|? ? Hth Hrest]; subst. simpl.
  rewrite (wf_no_empty_name th Hth).
  destruct rest as [|th' rest'].
  - simpl. f_equal. lia.
  - rewrite (IH (S lvl) Hrest) by discriminate. simpl. f_equal. lia.
Qed.

(** C10: the name index holds exactly the objects with a non-empty name:
    the empty theory has this property and [add] keeps it; [add] of an
    object with an empty name never reports a duplicate name, so any
    number of anonymous objects can be added; [get(name)] only finds an
    object with that non-empty name, and [get("")] misses in every theory
    of the chain and returns [end()] of the root theory. *)
Theorem C10_name_index (ch : Chain) :
  wf_theory Scenario.empty_theory /\
  (forall th o after th' s,
     wf_theory th -> add_object th o after = Ok (th', s) -> wf_theory th') /\
  (forall th o after nm,
     wf_theory th -> object_name o = "" -> add_object th o after <> Err (DuplicateName nm)) /\
  (Forall wf_theory ch -> forall name lvl s, get ch name = mkIterator lvl (Some s) ->
     name <> "" /\
     exists th o, ch !! lvl = Some th /\ (s, o) ∈ objects th /\ object_name o = name) /\
  (Forall wf_theory ch -> ch <> [] -> get ch "" = mkIterator (length ch - 1) None).
Proof.
  split; [|split; [|split; [|split]]].
  - split; simpl.
    + constructor.
    + intros n s. rewrite lookup_empty. split; [discriminate|].
      intros [_ (o & Hin & _)]. apply not_elem_of_nil in Hin. contradiction.
  - exact add_object_wf.
  - intros th o after nm Hwf Hname. unfold add_object. rewrite Hname, (wf_no_empty_name th Hwf).
    destruct after as [a0|]; [destruct (position_of a0 (objects th))|]; discriminate.
  - intros Hwf name lvl s Hget. unfold get in Hget.
    destruct (get_from_some 0 ch name lvl s Hget) as (k & th & -> & Hk & Hs).
    simpl. rewrite Forall_lookup in Hwf. destruct (Hwf k th Hk) as [_ Hns].
    apply Hns in Hs as [Hne (o & Hin & Hname)]. split; [exact Hne|].
    exists th, o. split; [exact Hk|]. split; [exact Hin|exact Hname].
  - intros Hwf Hne. unfold get. rewrite (get_from_empty_name 0 ch Hwf Hne). reflexivity.
Qed.

Lemma C10_name_index_witness :
  add_object Scenario.empty_theory Scenario.axiom_p None =
    Ok (mkTheory [(1, Scenario.axiom_p)] ∅ None, 1) /\
  add_object (mkTheory [(1, Scenario.axiom_p)] ∅ None) Scenario.axiom_p (Some 1) =
    Ok (mkTheory [(1, Scenario.axiom_p); (2, Scenario.axiom_p)] ∅ None, 2) /\
  wf_theory (mkTheory [(1, Scenario.axiom_p); (2, Scenario.axiom_p)] ∅ None) /\
  get [mkTheory [(1, Scenario.axiom_p); (2, Scenario.axiom_p)] ∅ None] "" = mkIterator 0 None.
Proof.
  destruct (C10_name_index [mkTheory [(1, Scenario.axiom_p); (2, Scenario.axiom_p)] ∅ None])
    as (Hempty & Hadd & _ & _ & Hget).
  assert (H1 : add_object Scenario.empty_theory Scenario.axiom_p None =
                 Ok (mkTheory [(1, Scenario.axiom_p)] ∅ None, 1)) by reflexivity.
  assert (H2 : add_object (mkTheory [(1, Scenario.axiom_p)] ∅ None) Scenario.axiom_p (Some 1) =
                 Ok (mkTheory [(1, Scenario.axiom_p); (2, Scenario.axiom_p)] ∅ None, 2))
    by reflexivity.
  assert (Hwf : wf_theory (mkTheory [(1, Scenario.axiom_p); (2, Scenario.axiom_p)] ∅ None))
    by exact (Hadd _ _ _ _ _ (Hadd _ _ _ _ _ Hempty H1) H2).
  split; [exact H1|]. split; [exact H2|]. split; [exact Hwf|].
  apply Hget; [constructor; [exact Hwf|constructor]|discriminate].
Defined.

(** ** C7: reference arithmetic *)

Lemma back_steps_le (len p n : nat) : n <= p -> back_steps len p n = p - n.
Proof.
  revert p; induction n as [|n IH]; intros p Hn; simpl; [lia|].
  destruct p as [|p]; [lia|]. rewrite IH by lia. lia.
Qed.

Lemma back_loop_nonneg (len p : nat) (d : Z) :
  (0 <= d <= Z.of_nat p)%Z -> back_loop len p d = Some (p - Z.to_nat d).
Proof.
  intros Hd. unfold back_loop. rewrite (proj2 (Z.ltb_ge _ _)) by lia.
  rewrite back_steps_le by lia. reflexivity.
Qed.

Lemma back_loop_neg (len p : nat) (d : Z) : (d < 0)%Z -> back_loop len p d = None.
Proof.
  intros Hd. unfold back_loop. rewrite (proj2 (Z.ltb_lt _ _)) by exact Hd. reflexivity.
Qed.

Lemma position_of_lookup (s : nat) (l : list (nat * Object)) (p : nat) :
  position_of s l = Some p -> exists o, l !! p = Some (s, o).
Proof.
  revert p; induction l as [|[s' o] l IH]; intros p H; simpl in H; [discriminate|].
  destruct (Nat.eqb_spec s s') as [->|_].
  - injection H as <-. exists o. reflexivity.
  - destruct (position_of s l) as [i|]; [|discriminate]. injection H as <-.
    exact (IH i eq_refl).
Qed.

Lemma slot_at_position (th : Theory) (s : option nat) (p : nat) :
  it_position th s = Some p -> slot_at th p = s.
Proof.
  unfold it_position, slot_at. destruct s as [s|]; intros H.
  - destruct (position_of_lookup s (objects th) p H) as [o ->]. reflexivity.
  - injection H as <-. rewrite lookup_ge_None_2 by lia. reflexivity.
Qed.

(** C7, as the code has it: [r - 0] is [r]; [r - k] for [0 <= k] no
    larger than the position of [r] is the reference [k] cells earlier;
    but [operator-=] only walks backward, [while (diff--) --ref;] with a
    negative [diff] decrements [ref] round the circular list until [diff]
    overflows at [INT_MIN], so [r - k] is undefined for every [k < 0] and
    [(r - k) - (-k)] is undefined for every [k > 0]. *)
Theorem C7_reference_arithmetic (ch : Chain) (r : Reference) (th : Theory) (p : nat) :
  ch !! it_level (ref r) = Some th -> it_position th (it_slot (ref r)) = Some p ->
  ref_minus ch r 0 = Some r /\
  (forall k, (0 <= k <= Z.of_nat p)%Z ->
     ref_minus ch r k =
       Some (mkReference (ref_theory r)
               (mkIterator (it_level (ref r)) (slot_at th (p - Z.to_nat k))))) /\
  (forall r' k, (k < 0)%Z -> ref_minus ch r' k = None) /\
  (forall k, (0 < k)%Z ->
     match ref_minus ch r k with Some r' => ref_minus ch r' (- k) | None => None end = None).
Proof.
  intros Hth Hp.
  assert (Hneg : forall r' k, (k < 0)%Z -> ref_minus ch r' k = None).
  { intros r' k Hk. unfold ref_minus, sub_assign, step_back.
    destruct (Z.eqb_spec k 0); [lia|].
    destruct (ch !! it_level (ref r')) as [th'|]; [|reflexivity].
    destruct (it_position th' (it_slot (ref r'))) as [p'|]; [|reflexivity].
    rewrite back_loop_neg by exact Hk. reflexivity. }
  split; [|split; [|split]].
  - unfold ref_minus, sub_assign, step_back. simpl. destruct r; reflexivity.
  - intros k Hk. unfold ref_minus, sub_assign, step_back.
    destruct (Z.eqb_spec k 0) as [->|_].
    + destruct r as [rt [lvl s]]. simpl in *. rewrite Nat.sub_0_r.
      rewrite (slot_at_position th s p Hp). reflexivity.
    + rewrite Hth, Hp, back_loop_nonneg by exact Hk. reflexivity.
  - exact Hneg.
  - intros k Hk. destruct (ref_minus ch r k) as [r'|]; [|reflexivity]. apply Hneg. lia.
Qed.

Lemma C7_reference_arithmetic_witness :
  [Scenario.two_nodes] !! 0 = Some Scenario.two_nodes /\
  it_position Scenario.two_nodes (Some 2) = Some 1 /\
  ref_minus [Scenario.two_nodes] (mkReference (Some 0) (mkIterator 0 (Some 2))) 1 =
    Some (mkReference (Some 0) (mkIterator 0 (Some 1))).
Proof.
  split; [reflexivity|]. split; [reflexivity|].
  destruct (C7_reference_arithmetic [Scenario.two_nodes]
              (mkReference (Some 0) (mkIterator 0 (Some 2))) Scenario.two_nodes 1
              eq_refl eq_refl) as (_ & Hk & _).
  rewrite (Hk 1%Z) by lia. reflexivity.
Defined.

(** C7 as stated: [(r - k) - (-k) = r] for every reference [r] and every
    [k >= 0].  It fails for [k = 1] and the second node of a theory: [r - 1]
    is the first node, and [(r - 1) - (-1)] is undefined. *)
Lemma C7_counterexample :
  ~ (forall (ch : Chain) (r : Reference) (k : Z), (0 <= k)%Z ->
       match ref_minus ch r k with Some r' => ref_minus ch r' (- k) | None => None end
       = Some r).
Proof.
  intros H.
  specialize (H [Scenario.two_nodes] (mkReference (Some 0) (mkIterator 0 (Some 2))) 1%Z).
  vm_compute in H. discriminate (H ltac:(discriminate)).
Qed.

(** ** C6: premise and argument counts *)

Lemma build_context_extra (fuel : nat) (params : list Node) (args extra : list Expr)
    (subst : Context) :
  length args = length params ->
  build_context fuel params (args ++ extra) subst = build_context fuel params args subst.
Proof.
  revert args subst; induction params as [|p ps IH]; intros [|s ss] subst Hl;
    simpl in *; try discriminate; [reflexivity|].
  destruct (getType s) as [st|]; [|reflexivity].
  destruct (compare_types fuel (Some subst) (node_type p) st) as [[|]|e]; simpl;
    [apply IH; lia|reflexivity|reflexivity].
Qed.

(** C6, as the code has it: no arity error exists.  [validate] with more
    or fewer premise references than the rule asks for returns false, for
    the three kinds of rules; and the [ProofStep] constructor ignores the
    arguments beyond the rule's parameters. *)
Theorem C6_arity (fuel : nat) (ch : Chain) :
  (forall rule context refs c,
     length refs <> premise_count (rule_body rule) ->
     validate fuel ch rule context refs c = Ok false) /\
  (forall rule args extra refs,
     length args = length (rule_params rule) ->
     make_proofstep fuel rule (args ++ extra) refs = make_proofstep fuel rule args refs).
Proof.
  split.
  - intros [nd params body] context refs c Hl. unfold validate. simpl in *.
    destruct body as [s|s1 s2|prems concl]; simpl in Hl.
    + destruct (Nat.eqb_spec (length refs) 0); [contradiction|reflexivity].
    + destruct refs as [|r [|r' rs]]; [reflexivity|simpl in Hl; lia|reflexivity].
    + destruct (Nat.eqb_spec (length refs) (length prems)); [contradiction|reflexivity].
  - intros rule args extra refs Hl. unfold make_proofstep.
    rewrite build_context_extra by exact Hl. reflexivity.
Qed.

Lemma C6_arity_witness :
  length [Scenario.ref_at 1] <> premise_count (rule_body Scenario.ponens) /\
  validate 10 [Scenario.ponens_theory []] Scenario.ponens Scenario.ctx_pq [Scenario.ref_at 1]
    (AtomicExpr Scenario.q) = Ok false /\
  length [AtomicExpr Scenario.p; AtomicExpr Scenario.q] = length (rule_params Scenario.ponens) /\
  make_proofstep 10 Scenario.ponens
    ([AtomicExpr Scenario.p; AtomicExpr Scenario.q] ++ [AtomicExpr Scenario.p]) [] =
  make_proofstep 10 Scenario.ponens [AtomicExpr Scenario.p; AtomicExpr Scenario.q] [].
Proof.
  destruct (C6_arity 10 [Scenario.ponens_theory []]) as [Hv Hm].
  split; [simpl; lia|]. split; [apply Hv; simpl; lia|].
  split; [reflexivity|]. apply Hm. reflexivity.
Defined.

(** C6 as stated: a wrong number of premise references raises an error.
    Modus ponens with a single reference is rejected by returning false. *)
Lemma C6_counterexample :
  ~ (forall (fuel : nat) (ch : Chain) (rule : Rule) (context : Context)
        (refs : list Reference) (c : Expr),
       length refs <> premise_count (rule_body rule) ->
       exists e, validate fuel ch rule context refs c = Err e).
Proof.
  intros H.
  destruct (H 10 [Scenario.ponens_theory []] Scenario.ponens Scenario.ctx_pq
              [Scenario.ref_at 1] (AtomicExpr Scenario.q)) as [e He].
  - simpl. lia.
  - vm_compute in He. discriminate He.
Qed.

(** ** C5: pushing a call of a substituted lambda *)

(** C5: when the callee of a lambda call is substituted by an atomic
    expression, [push] fails with an explicit error ([throw -1]); when it
    is substituted by a lambda expression, [push] binds the lambda's
    parameters to the call's arguments and pushes the lambda's body.  Any
    other substitute, such as a call returning a predicate, which the
    [ProofStep] constructor accepts, falls to the branch commented
    [Otherwise it is a lambda] and is cast to a lambda expression: undefined
    behaviour rather than the clean failure or beta-reduction the claim
    describes. *)
Theorem C5_push_lambda_call (fuel : nat) (st : SubstState) (f : Node) (args : list Expr) :
  (forall at0, substitutions st !! node_id f = Some (AtomicExpr at0) ->
     push (S fuel) (LambdaCallExpr f args) st = Err (Thrown (-1))) /\
  (forall params body, substitutions st !! node_id f = Some (LambdaExpr params body) ->
     push (S fuel) (LambdaCallExpr f args) st =
       (push_subst (Some params) ;;; add_args params args ;;; push fuel body) st) /\
  (forall g gargs, substitutions st !! node_id f = Some (LambdaCallExpr g gargs) ->
     push (S fuel) (LambdaCallExpr f args) st =
       Err (Undefined "static_pointer_cast<const LambdaExpr> of a non-lambda")).
Proof.
  split; [intros ? H|split; intros ? ? H]; simpl; unfold sbind, have; simpl; rewrite H;
    reflexivity.
Qed.

Lemma C9_lambda_getType_witness :
  getType (LambdaExpr [Scenario.x] (AtomicExpr Scenario.q)) =
    Some (LambdaType [Some (AtomicExpr Scenario.T)] statement) /\
  getType (LambdaExpr [] (AtomicExpr Scenario.q)) = None.
Proof.
  split.
  - exact (proj1 (C9_lambda_getType (AtomicExpr Scenario.q)) Scenario.x statement
             eq_refl eq_refl eq_refl).
  - exact (proj1 (proj2 (C9_lambda_getType (AtomicExpr Scenario.q)))).
Defined.

Lemma C5_push_lambda_call_witness :
  substitutions (Scenario.subst_state {[70 := Scenario.lambda_q]}) !! node_id Scenario.P =
    Some (LambdaExpr [Scenario.y] (AtomicExpr Scenario.q)) /\
  push 10 (LambdaCallExpr Scenario.P [AtomicExpr Scenario.fritz])
    (Scenario.subst_state {[70 := Scenario.lambda_q]}) =
  (push_subst (Some [Scenario.y]) ;;; add_args [Scenario.y] [AtomicExpr Scenario.fritz] ;;;
   push 9 (AtomicExpr Scenario.q)) (Scenario.subst_state {[70 := Scenario.lambda_q]}) /\
  substitutions (Scenario.subst_state {[70 := AtomicExpr Scenario.q]}) !! node_id Scenario.P =
    Some (AtomicExpr Scenario.q) /\
  push 10 (LambdaCallExpr Scenario.P [AtomicExpr Scenario.fritz])
    (Scenario.subst_state {[70 := AtomicExpr Scenario.q]}) = Err (Thrown (-1)) /\
  make_proofstep 10 Scenario.pred_rule [Scenario.g_fritz] [] =
    Ok (mkProofStep Scenario.pred_rule {[70 := Scenario.g_fritz]} []) /\
  substitutions (Scenario.subst_state {[70 := Scenario.g_fritz]}) !! node_id Scenario.P =
    Some Scenario.g_fritz /\
  push 10 (LambdaCallExpr Scenario.P [AtomicExpr Scenario.fritz])
    (Scenario.subst_state {[70 := Scenario.g_fritz]}) =
    Err (Undefined "static_pointer_cast<const LambdaExpr> of a non-lambda").
Proof.
  assert (H1 : substitutions (Scenario.subst_state {[70 := Scenario.lambda_q]}) !!
                 node_id Scenario.P = Some (LambdaExpr [Scenario.y] (AtomicExpr Scenario.q)))
    by reflexivity.
  assert (H2 : substitutions (Scenario.subst_state {[70 := AtomicExpr Scenario.q]}) !!
                 node_id Scenario.P = Some (AtomicExpr Scenario.q)) by reflexivity.
  assert (H3 : substitutions (Scenario.subst_state {[70 := Scenario.g_fritz]}) !!
                 node_id Scenario.P = Some Scenario.g_fritz) by reflexivity.
  split; [exact H1|]. split.
  - exact (proj1 (proj2 (C5_push_lambda_call 9 _ Scenario.P [AtomicExpr Scenario.fritz]))
             _ _ H1).
  - split; [exact H2|]. split.
    + exact (proj1 (C5_push_lambda_call 9 _ Scenario.P [AtomicExpr Scenario.fritz]) _ H2).
    + split; [vm_compute; reflexivity|]. split; [exact H3|].
      exact (proj2 (proj2 (C5_push_lambda_call 9 _ Scenario.P [AtomicExpr Scenario.fritz]))
               _ _ H3).
Defined.


(** ** C4: matching lambda expressions *)

(** C4: [visit(const LambdaExpr * )] compares the type signatures of the
    target and template lambdas with [TypeComparator compare;], which has
    no context, unlike the [ProofStep] constructor's [compare(&subst)].  So
    whenever the signatures differ without the context, the target is a
    mismatch, whatever the substitutions: the template
    [(forall (lambda ((T x)) q))] with [T] bound to [person] does not match
    [(forall (lambda ((person y)) q))], although the two signatures are
    equal under the context. *)
Theorem C4_lambda_signature_without_context (fuel : nat) :
  (forall st params def rest tparams tdef a b,
     stack st = LambdaExpr params def :: rest ->
     getType (LambdaExpr tparams tdef) = Some a -> getType (LambdaExpr params def) = Some b ->
     compare_types fuel None a b = Ok false ->
     visit fuel (LambdaExpr tparams tdef) st =
       mismatch (LambdaExpr params def) (LambdaExpr tparams tdef) st) /\
  compare_types 5 (Some Scenario.ctx_T)
    (LambdaType [Some (AtomicExpr Scenario.person)] statement)
    (LambdaType [Some (AtomicExpr Scenario.T)] statement) = Ok true /\
  check 5 Scenario.template_forall Scenario.target_forall Scenario.ctx_T = Ok false.
Proof.
  split; [|split; [vm_compute; reflexivity|vm_compute; reflexivity]].
  intros st params def rest tparams tdef a b Hst Ha Hb Hc.
  cbn [visit]. unfold sbind at 1, top. rewrite Hst. cbv iota beta.
  unfold lift. rewrite Ha, Hb, Hc. reflexivity.
Qed.

Lemma C4_lambda_signature_without_context_witness :
  getType (LambdaExpr [Scenario.y] (AtomicExpr Scenario.q)) =
    Some (LambdaType [Some (AtomicExpr Scenario.person)] statement) /\
  getType (LambdaExpr [Scenario.x] (AtomicExpr Scenario.q)) =
    Some (LambdaType [Some (AtomicExpr Scenario.T)] statement) /\
  compare_types 5 None (LambdaType [Some (AtomicExpr Scenario.person)] statement)
    (LambdaType [Some (AtomicExpr Scenario.T)] statement) = Ok false /\
  visit 5 (LambdaExpr [Scenario.y] (AtomicExpr Scenario.q))
    {| substitutions := Scenario.ctx_T;
       stack := [LambdaExpr [Scenario.x] (AtomicExpr Scenario.q)];
       subst_stack := [None]; offender := None |} =
  mismatch (LambdaExpr [Scenario.x] (AtomicExpr Scenario.q))
    (LambdaExpr [Scenario.y] (AtomicExpr Scenario.q))
    {| substitutions := Scenario.ctx_T;
       stack := [LambdaExpr [Scenario.x] (AtomicExpr Scenario.q)];
       subst_stack := [None]; offender := None |}.
Proof.
  assert (Ha : getType (LambdaExpr [Scenario.y] (AtomicExpr Scenario.q)) =
                 Some (LambdaType [Some (AtomicExpr Scenario.person)] statement)) by reflexivity.
  assert (Hb : getType (LambdaExpr [Scenario.x] (AtomicExpr Scenario.q)) =
                 Some (LambdaType [Some (AtomicExpr Scenario.T)] statement)) by reflexivity.
  assert (Hc : compare_types 5 None (LambdaType [Some (AtomicExpr Scenario.person)] statement)
                 (LambdaType [Some (AtomicExpr Scenario.T)] statement) = Ok false)
    by (vm_compute; reflexivity).
  split; [exact Ha|]. split; [exact Hb|]. split; [exact Hc|].
  exact (proj1 (C4_lambda_signature_without_context 5)
           {| substitutions := Scenario.ctx_T;
              stack := [LambdaExpr [Scenario.x] (AtomicExpr Scenario.q)];
              subst_stack := [None]; offender := None |}
           [Scenario.x] (AtomicExpr Scenario.q) [] [Scenario.y] (AtomicExpr Scenario.q)
           _ _ eq_refl Ha Hb Hc).
Defined.

(** ** C8: parsing reference descriptors *)

Lemma substring_0_length (m : nat) (s : string) : String.length (String.substring 0 m s) <= m.
Proof.
  revert m; induction s as [|c s IH]; intros [|m]; simpl; try lia.
  specialize (IH m). lia.
Qed.

(** C8: the test [base.substr(0, 6) == "parent^"] compares six characters
    with seven and never holds, so a descriptor [parent^<k>] is looked up
    as a name: [parent^2] in the theory nested two levels deep yields the
    root theory's [end()] with no theory, not the position where the
    parent theory is attached in the root theory (cell 2).  [this~1] and
    [parent] resolve as described: the cell before the current lemma, and
    the parent's [parent_object]; [y~1] steps back from [y]. *)
Theorem C8_parent_power_descriptor :
  (forall s, String.eqb (substr 0 6 s) "parent^" = false) /\
  (forall ch this_it k, find_char "~"%char k = None ->
     parse_reference ch this_it ("parent^" ++ k) =
       Some (mkReference None (get ch ("parent^" ++ k)))) /\
  parse_reference [Scenario.inner; Scenario.middle; Scenario.root] (Some 8) "parent^2" =
    Some (mkReference None (mkIterator 2 None)) /\
  parse_reference [Scenario.inner; Scenario.middle; Scenario.root] (Some 8) "parent" =
    Some (mkReference (Some 1) (mkIterator 1 (Some 6))) /\
  parent_object Scenario.middle = Some 2 /\
  parse_reference [Scenario.inner; Scenario.middle; Scenario.root] (Some 8) "this~1" =
    Some (mkReference (Some 0) (mkIterator 0 (Some 7))) /\
  parse_reference [Scenario.inner; Scenario.middle; Scenario.root] (Some 8) "y~1" =
    Some (mkReference None (mkIterator 2 (Some 1))).
Proof.
  split; [|split; [|repeat split; vm_compute; reflexivity]].
  - intros s. destruct (String.eqb_spec (substr 0 6 s) "parent^") as [He|]; [|reflexivity].
    pose proof (substring_0_length 6 s) as Hl. unfold substr in He.
    rewrite He in Hl. simpl in Hl. lia.
  - intros ch this_it k Hk.
    change (String.append "parent^" k) with
      (String "p" (String "a" (String "r" (String "e" (String "n" (String "t"
        (String "^" k))))))).
    unfold parse_reference. simpl find_char. rewrite Hk. reflexivity.
Qed.

Lemma C8_parent_power_descriptor_witness :
  find_char "~"%char "2" = None /\
  parse_reference [Scenario.inner; Scenario.middle; Scenario.root] (Some 8) ("parent^" ++ "2") =
    Some (mkReference None (get [Scenario.inner; Scenario.middle; Scenario.root]
                                ("parent^" ++ "2"))).
Proof.
  split; [reflexivity|].
  exact (proj1 (proj2 C8_parent_power_descriptor) _ _ "2" eq_refl).
Defined.

(** ** More of the kernel: proofs *)

Lemma string_of_uint_skip_ws (u : Decimal.uint) : skip_ws (string_of_uint u) = string_of_uint u.
Proof. destruct u; reflexivity. Qed.

Lemma read_digits_uint (u : Decimal.uint) (acc : Z) :
  (0 <= acc)%Z ->
  read_digits (string_of_uint u) acc true = (Z.of_nat (Nat.of_uint_acc u (Z.to_nat acc)), true).
Proof.
  revert acc; induction u as [|u IH|u IH|u IH|u IH|u IH|u IH|u IH|u IH|u IH|u IH];
    intros acc Hacc; simpl; [f_equal; lia|..];
    rewrite IH by lia;
    match goal with |- (Z.of_nat (Nat.of_uint_acc _ ?x), _) = (Z.of_nat (Nat.of_uint_acc _ ?y), _) =>
      replace x with y; [reflexivity|rewrite Nat.tail_mul_spec; lia] end.
Qed.

Lemma to_uint_not_nil (n : nat) : Nat.to_uint n <> Decimal.Nil.
Proof.
  intros H. pose proof (DecimalNat.Unsigned.of_to n) as E. rewrite H in E.
  simpl in E. subst n. vm_compute in H. discriminate H.
Qed.

Lemma parse_int_of_nat (n : nat) :
  (Z.of_nat n <= INT_MAX)%Z -> parse_int (string_of_nat n) = Z.of_nat n.
Proof.
  intros Hn. pose proof (to_uint_not_nil n) as Hnn. pose proof (DecimalNat.Unsigned.of_to n) as E.
  unfold parse_int, string_of_nat. rewrite string_of_uint_skip_ws.
  unfold Nat.of_uint in E.
  destruct (Nat.to_uint n) as [|u|u|u|u|u|u|u|u|u|u]; [congruence|..];
    simpl; rewrite read_digits_uint by lia; simpl in E |- *;
    match goal with
    | E : Nat.of_uint_acc _ ?y = _ |- context [Nat.of_uint_acc _ ?x] =>
        replace x with y by (rewrite ?Nat.tail_mul_spec; lia)
    end;
    rewrite E; unfold INT_MIN, INT_MAX in *; lia.
Qed.

Lemma position_of_nodup (l : list (nat * Object)) (p s : nat) (o : Object) :
  NoDup (map fst l) -> l !! p = Some (s, o) ->
  position_of s l = Some p /\ lookup_slot s l = Some o.
Proof.
  revert p; induction l as [|[s' o'] l IH]; intros p Hnd Hl; [discriminate|].
  simpl in Hnd. apply NoDup_cons in Hnd as [Hnin Hnd].
  destruct p as [|p]; simpl in Hl |- *.
  - injection Hl as -> ->. rewrite Nat.eqb_refl. split; reflexivity.
  - destruct (Nat.eqb_spec s s') as [->|Hne].
    + exfalso. apply Hnin. apply list_elem_of_In, in_map_iff. exists (s', o).
      split; [reflexivity|]. apply list_elem_of_In. exact (list_elem_of_lookup_2 _ _ _ Hl).
    + destruct (IH p Hnd Hl) as [-> ->]. split; reflexivity.
Qed.

Lemma slot_unique (l : list (nat * Object)) (p q s : nat) (o o' : Object) :
  NoDup (map fst l) -> l !! p = Some (s, o) -> l !! q = Some (s, o') -> p = q.
Proof.
  intros Hnd Hp Hq.
  destruct (position_of_nodup l p s o Hnd Hp) as [Ep _].
  destruct (position_of_nodup l q s o' Hnd Hq) as [Eq _]. congruence.
Qed.

Lemma at_pos_some (th : Theory) (lv p s : nat) :
  at_pos th lv p = mkIterator lv (Some s) <-> exists o, objects th !! p = Some (s, o).
Proof.
  unfold at_pos, slot_at. destruct (objects th !! p) as [[s' o']|]; split.
  - intros H. injection H as ->. eauto.
  - intros [o H]. injection H as -> ->. reflexivity.
  - discriminate.
  - intros [o H]. discriminate.
Qed.

Lemma desc_walk_found (th : Theory) (lv ps s : nat) (o : Object) (p : nat) :
  NoDup (map fst (objects th)) -> objects th !! ps = Some (s, o) ->
  ps <= p < length (objects th) ->
  desc_walk th lv (mkIterator lv (Some s)) p = (p - ps, mkIterator lv (Some s)).
Proof.
  intros Hnd Hps. induction p as [|p IH]; intros Hp; cbn [desc_walk];
    rewrite (proj2 (Nat.leb_gt _ _)) by lia; simpl orb;
    case_bool_decide as Heq.
  - rewrite Heq. f_equal; lia.
  - exfalso. apply Heq. apply at_pos_some. exists o. assert (ps = 0) as <- by lia. exact Hps.
  - rewrite Heq. apply at_pos_some in Heq as [o' Ho'].
    rewrite (slot_unique _ _ _ _ _ _ Hnd Ho' Hps), Nat.sub_diag. reflexivity.
  - destruct (Nat.eq_dec ps (S p)) as [Heqp|Hne].
    + exfalso. apply Heq. apply at_pos_some. exists o. rewrite <- Heqp. exact Hps.
    + rewrite IH by lia. f_equal. lia.
Qed.

Lemma desc_walk_level (th : Theory) (lv : nat) (r : iterator) (p : nat) :
  it_level (snd (desc_walk th lv r p)) = lv.
Proof.
  induction p as [|p IH]; cbn [desc_walk];
    destruct (_ || _); try reflexivity.
  destruct (desc_walk th lv r p) as [d h]. exact IH.
Qed.

Lemma desc_walk_missed (th : Theory) (lv s : nat) (p : nat) :
  (forall q o, objects th !! q = Some (s, o) -> p < q) -> p < length (objects th) ->
  desc_walk th lv (mkIterator lv (Some s)) p = (S p, mkIterator lv None).
Proof.
  intros Hq. induction p as [|p IH]; intros Hp; cbn [desc_walk];
    rewrite (proj2 (Nat.leb_gt _ _)) by lia; simpl orb;
    case_bool_decide as Heq.
  - apply at_pos_some in Heq as [o Ho]. specialize (Hq _ _ Ho). lia.
  - reflexivity.
  - apply at_pos_some in Heq as [o Ho]. specialize (Hq _ _ Ho). lia.
  - rewrite IH; [reflexivity| |lia]. intros q o Ho. specialize (Hq _ _ Ho). lia.
Qed.

Lemma substring_0_full (d : string) : String.substring 0 (String.length d) d = d.
Proof. induction d as [|c d IH]; simpl; [reflexivity|]. rewrite IH. reflexivity. Qed.

Lemma back_loop_wrap (len p : nat) : back_loop len p (Z.of_nat (S p)) = Some len.
Proof.
  unfold back_loop. rewrite (proj2 (Z.ltb_ge _ _)) by lia. rewrite Nat2Z.id. f_equal.
  replace (S p) with (p + 1) by lia.
  assert (H : forall n q, n <= q -> back_steps len q (n + 1) = back_steps len (q - n) 1).
  { induction n as [|n IH]; intros q Hq; [rewrite Nat.sub_0_r; reflexivity|]. simpl.
    destruct q as [|q]; [lia|]. rewrite IH by lia. reflexivity. }
  rewrite H by lia. rewrite Nat.sub_diag. reflexivity.
Qed.

Lemma parse_this (ch : Chain) (t : option nat) (d : nat) :
  (Z.of_nat d <= INT_MAX)%Z ->
  parse_reference ch t (String.append "this~" (string_of_nat d)) =
    match step_back ch (mkIterator 0 t) (Z.of_nat d) with
    | Some it' => Some (mkReference (Some 0) it')
    | None => None
    end.
Proof.
  intros Hd. unfold parse_reference. simpl find_char. cbv iota beta.
  unfold substr_from, substr. simpl String.substring. simpl String.length.
  change (String.append "" (string_of_nat d)) with (string_of_nat d). rewrite Nat.sub_0_r, substring_0_full, parse_int_of_nat by exact Hd.
  reflexivity.
Qed.

Lemma position_lt (l : list (nat * Object)) (t p : nat) :
  position_of t l = Some p -> p < length l.
Proof.
  intros H. destruct (position_of_lookup t l p H) as [o Ho]. exact (lookup_lt_Some _ _ _ Ho).
Qed.

Lemma step_back_to (ch : Chain) (th : Theory) (lv t pt ps s : nat) (o : Object) :
  ch !! lv = Some th -> NoDup (map fst (objects th)) ->
  position_of t (objects th) = Some pt -> objects th !! ps = Some (s, o) -> ps <= pt ->
  step_back ch (mkIterator lv (Some t)) (Z.of_nat (pt - ps)) = Some (mkIterator lv (Some s)).
Proof.
  intros Hch Hnd Hpt Hps Hle. unfold step_back.
  destruct (Z.eqb_spec (Z.of_nat (pt - ps)) 0) as [H0|H0].
  - destruct (position_of_lookup t (objects th) pt Hpt) as [o' Ho'].
    assert (pt = ps) as -> by lia. rewrite Hps in Ho'. injection Ho' as -> _. reflexivity.
  - simpl. rewrite Hch. simpl. rewrite Hpt, back_loop_nonneg by lia.
    unfold slot_at. replace (pt - Z.to_nat (Z.of_nat (pt - ps))) with ps by lia.
    rewrite Hps. reflexivity.
Qed.

(** [Reference::getDescription] of an unnamed object of the current
    theory that lies [d] objects before (or at) the current statement gives
    [this~d], and parsing [this~d] at the same statement refers back to that
    object. *)
Theorem get_description_this (ch : Chain) (th : Theory) (t s : nat) (tr : option nat)
    (o : Object) (pt ps : nat) :
  ch !! 0 = Some th -> NoDup (map fst (objects th)) ->
  position_of t (objects th) = Some pt -> objects th !! ps = Some (s, o) ->
  object_name o = "" -> ps <= pt -> (Z.of_nat (pt - ps) <= INT_MAX)%Z ->
  get_description ch (Some t) (mkReference tr (mkIterator 0 (Some s))) =
    Ok (String.append "this~" (string_of_nat (pt - ps))) /\
  parse_reference ch (Some t) (String.append "this~" (string_of_nat (pt - ps))) =
    Some (mkReference (Some 0) (mkIterator 0 (Some s))).
Proof.
  intros Hch Hnd Hpt Hps Hname Hle Hmax. split.
  - destruct ch as [|th0 rest]; [discriminate|]. injection Hch as <-.
    destruct (position_of_nodup _ _ _ _ Hnd Hps) as [_ Hlk].
    unfold get_description, deref. simpl. rewrite Hlk. simpl. rewrite Hname. simpl.
    rewrite Hpt, (desc_walk_found th0 0 ps s o pt Hnd Hps) by (split; [lia|exact (position_lt _ _ _ Hpt)]).
    assert (E : (INT_MAX <? Z.of_nat (pt - ps))%Z = false) by (apply Z.ltb_ge; lia).
    destruct rest; [|rewrite bool_decide_eq_true_2 by reflexivity];
      simpl rbind; cbv beta iota zeta; rewrite E; reflexivity.
  - rewrite parse_this by exact Hmax. erewrite step_back_to; eauto.
Qed.

Lemma parse_parent (th : Theory) (rest : Chain) (t : option nat) (d : nat) :
  (Z.of_nat d <= INT_MAX)%Z ->
  parse_reference (th :: rest) t (String.append "parent~" (string_of_nat d)) =
    match step_back (th :: rest) (mkIterator 1 (parent_object th)) (Z.of_nat d) with
    | Some it' => Some (mkReference (match rest with [] => None | _ :: _ => Some 1 end) it')
    | None => None
    end.
Proof.
  intros Hd. unfold parse_reference. simpl find_char. cbv iota beta.
  unfold substr_from, substr. simpl String.substring. simpl String.length.
  change (String.append "" (string_of_nat d)) with (string_of_nat d).
  rewrite Nat.sub_0_r, substring_0_full, parse_int_of_nat by exact Hd.
  reflexivity.
Qed.

(** [Reference::getDescription] of an unnamed object of the parent theory
    that lies [d] objects before (or at) the object holding the current
    theory gives [parent~d], and parsing [parent~d] refers back to that
    object. *)
Theorem get_description_parent (th0 th1 : Theory) (rest : Chain) (t u s : nat)
    (tr : option nat) (o : Object) (pt pu ps : nat) :
  position_of t (objects th0) = Some pt -> parent_object th0 = Some u ->
  NoDup (map fst (objects th1)) -> position_of u (objects th1) = Some pu ->
  objects th1 !! ps = Some (s, o) -> object_name o = "" -> ps <= pu ->
  (Z.of_nat (pu - ps) <= INT_MAX)%Z ->
  get_description (th0 :: th1 :: rest) (Some t) (mkReference tr (mkIterator 1 (Some s))) =
    Ok (String.append "parent~" (string_of_nat (pu - ps))) /\
  parse_reference (th0 :: th1 :: rest) (Some t) (String.append "parent~" (string_of_nat (pu - ps))) =
    Some (mkReference (Some 1) (mkIterator 1 (Some s))).
Proof.
  intros Hpt Hpar Hnd Hpu Hps Hname Hle Hmax. split.
  - destruct (position_of_nodup _ _ _ _ Hnd Hps) as [_ Hlk].
    unfold get_description, deref. simpl. rewrite Hlk. simpl. rewrite Hname. simpl.
    rewrite Hpt.
    destruct (desc_walk th0 0 (mkIterator 1 (Some s)) pt) as [d0 h0] eqn:Hw.
    pose proof (desc_walk_level th0 0 (mkIterator 1 (Some s)) pt) as Hl0.
    rewrite Hw in Hl0. simpl in Hl0.
    rewrite bool_decide_eq_false_2 by (intros Heq; rewrite Heq in Hl0; discriminate).
    rewrite Hpar. simpl. rewrite Hpu.
    rewrite (desc_walk_found th1 1 ps s o pu Hnd Hps) by (split; [lia|exact (position_lt _ _ _ Hpu)]).
    assert (E : (INT_MAX <? Z.of_nat (pu - ps))%Z = false) by (apply Z.ltb_ge; lia).
    destruct rest; [|rewrite bool_decide_eq_true_2 by reflexivity];
      simpl rbind; cbv beta iota zeta; rewrite E; reflexivity.
  - rewrite parse_parent by exact Hmax. rewrite Hpar.
    erewrite (step_back_to (th0 :: th1 :: rest) th1 1 u pu ps s o); eauto.
Qed.

(** [Reference::getDescription] of an unnamed object that lies after the
    current statement in a root theory: the backward walk wraps around
    through [end()] and the description is [this~(p+1)], [p] being the
    statement's position.  Parsing that descriptor steps back [p+1] times
    from the statement, past [begin()] to [end()]: it yields the theory's
    [end()], not the object. *)
Theorem get_description_forward (th : Theory) (t s : nat) (tr : option nat) (o : Object)
    (pt ps : nat) :
  NoDup (map fst (objects th)) ->
  position_of t (objects th) = Some pt -> objects th !! ps = Some (s, o) ->
  object_name o = "" -> pt < ps -> (Z.of_nat (S pt) <= INT_MAX)%Z ->
  get_description [th] (Some t) (mkReference tr (mkIterator 0 (Some s))) =
    Ok (String.append "this~" (string_of_nat (S pt))) /\
  parse_reference [th] (Some t) (String.append "this~" (string_of_nat (S pt))) =
    Some (mkReference (Some 0) (mkIterator 0 None)).
Proof.
  intros Hnd Hpt Hps Hname Hlt Hmax. split.
  - destruct (position_of_nodup _ _ _ _ Hnd Hps) as [_ Hlk].
    unfold get_description, deref. simpl. rewrite Hlk. simpl. rewrite Hname. simpl.
    rewrite Hpt, desc_walk_missed.
    + assert (E : (INT_MAX <? Z.of_nat (S pt))%Z = false) by (apply Z.ltb_ge; lia).
      simpl rbind; cbv beta iota zeta; rewrite E; reflexivity.
    + intros q o' Hq. rewrite <- (slot_unique _ _ _ _ _ _ Hnd Hps Hq). exact Hlt.
    + exact (position_lt _ _ _ Hpt).
  - rewrite parse_this by exact Hmax. unfold step_back.
    rewrite (proj2 (Z.eqb_neq _ _)) by lia. simpl. rewrite Hpt.
    pose proof (back_loop_wrap (length (objects th)) pt) as Hw. unfold back_loop in Hw.
    rewrite (proj2 (Z.ltb_ge _ _)) in Hw by lia. injection Hw as ->.
    unfold slot_at. rewrite lookup_ge_None_2 by lia. reflexivity.
Qed.

Lemma lookup_slot_elem (s : nat) (l : list (nat * Object)) (o : Object) :
  lookup_slot s l = Some o -> (s, o) ∈ l.
Proof.
  induction l as [|[s' o'] l IH]; simpl; [discriminate|].
  destruct (Nat.eqb_spec s s') as [->|_]; intros H.
  - injection H as ->. apply elem_of_cons. left. reflexivity.
  - apply elem_of_cons. right. exact (IH H).
Qed.

Lemma get_from_found (ch : Chain) (lvl lv : nat) (th : Theory) (n : string) (s : nat) :
  (forall k th', k < lv -> ch !! k = Some th' -> name_space th' !! n = None) ->
  ch !! lv = Some th -> name_space th !! n = Some s ->
  get_from lvl ch n = mkIterator (lvl + lv) (Some s).
Proof.
  revert ch lvl; induction lv as [|lv IH]; intros [|th0 rest] lvl Hsh Hch Hn; try discriminate.
  - injection Hch as ->. simpl. rewrite Hn. f_equal. lia.
  - simpl. rewrite (Hsh 0 th0) by (reflexivity || lia).
    destruct rest as [|th1 rest']; [discriminate|].
    rewrite (IH (th1 :: rest') (S lvl)); [f_equal; lia| |exact Hch|exact Hn].
    intros k th' Hk Hk'. apply (Hsh (S k) th'); [lia|exact Hk'].
Qed.

(** [Reference::getDescription] of a named object gives its name, and
    parsing the name finds the same object again, as long as no closer
    theory has an object of that name and the name does not look like a
    descriptor ([~], [this], [parent], or a leading number). *)
Theorem get_description_name (ch : Chain) (this_it : option nat) (r : Reference)
    (th : Theory) (o : Object) :
  ch !! it_level (ref r) = Some th -> wf_theory th -> deref ch (ref r) = Ok o ->
  object_name o <> "" ->
  (forall k th', k < it_level (ref r) -> ch !! k = Some th' ->
     name_space th' !! object_name o = None) ->
  find_char "~" (object_name o) = None -> object_name o <> "this" ->
  object_name o <> "parent" -> parse_int (object_name o) = 0%Z ->
  get_description ch this_it r = Ok (object_name o) /\
  parse_reference ch this_it (object_name o) = Some (mkReference None (ref r)).
Proof.
  intros Hch Hwf Hd Hne Hsh Hfind Hthis Hparent Hint. split.
  - unfold get_description. rewrite Hd. simpl.
    rewrite (proj2 (String.eqb_neq _ _) Hne). reflexivity.
  - assert (Hs : exists s, it_slot (ref r) = Some s /\ lookup_slot s (objects th) = Some o).
    { unfold deref in Hd. rewrite Hch in Hd.
      destruct (it_slot (ref r)) as [s|]; [|discriminate].
      destruct (lookup_slot s (objects th)) as [o'|] eqn:Hl; [|discriminate].
      injection Hd as ->. eauto. }
    destruct Hs as (s & Hslot & Hl).
    assert (Hns : name_space th !! object_name o = Some s).
    { apply (proj2 Hwf). split; [exact Hne|]. exists o.
      split; [exact (lookup_slot_elem _ _ _ Hl)|reflexivity]. }
    assert (H7 : String.eqb (substr 0 6 (object_name o)) "parent^" = false).
    { apply String.eqb_neq. intros Heq.
      pose proof (substring_0_length 6 (object_name o)) as Hlen.
      unfold substr in Heq. rewrite Heq in Hlen. simpl in Hlen. lia. }
    unfold parse_reference. rewrite Hfind, Hint.
    rewrite (proj2 (String.eqb_neq _ _) Hthis), (proj2 (String.eqb_neq _ _) Hparent), H7.
    unfold step_back. simpl. unfold get.
    rewrite (get_from_found ch 0 (it_level (ref r)) th (object_name o) s Hsh Hch Hns).
    simpl. rewrite <- Hslot. destruct r as [rt [lv sl]]. reflexivity.
Qed.

Lemma it_position_le (th : Theory) (s : option nat) (p : nat) :
  it_position th s = Some p -> p <= length (objects th).
Proof.
  destruct s as [s|]; simpl; intros H.
  - pose proof (position_lt _ _ _ H). lia.
  - injection H as <-. lia.
Qed.

Lemma at_pos_inj (th : Theory) (lv p q : nat) :
  NoDup (map fst (objects th)) -> p <= length (objects th) -> q <= length (objects th) ->
  at_pos th lv p = at_pos th lv q -> p = q.
Proof.
  intros Hnd Hp Hq H. injection H as H. unfold slot_at in H.
  destruct (objects th !! p) as [[sp op]|] eqn:Ep;
    destruct (objects th !! q) as [[sq oq]|] eqn:Eq; try discriminate.
  - injection H as <-. exact (slot_unique _ _ _ _ _ _ Hnd Ep Eq).
  - apply lookup_ge_None in Ep, Eq. lia.
Qed.

Lemma it_position_slot_at (th : Theory) (p : nat) :
  NoDup (map fst (objects th)) -> p <= length (objects th) ->
  it_position th (slot_at th p) = Some p.
Proof.
  intros Hnd Hp. unfold slot_at.
  destruct (objects th !! p) as [[s o]|] eqn:E; simpl.
  - exact (proj1 (position_of_nodup _ _ _ _ Hnd E)).
  - apply lookup_ge_None in E. f_equal. lia.
Qed.

Lemma at_pos_position (th : Theory) (it : iterator) (p : nat) :
  it_position th (it_slot it) = Some p -> at_pos th (it_level it) p = it.
Proof.
  intros H. unfold at_pos. rewrite (slot_at_position th (it_slot it) p H).
  destruct it; reflexivity.
Qed.

Lemma fwd_count_reach (th : Theory) (lv q p n : nat) :
  NoDup (map fst (objects th)) -> q <= length (objects th) -> p <= q -> q - p <= n ->
  fwd_count th lv (at_pos th lv q) p n = Some (q - p).
Proof.
  intros Hnd Hq. revert p; induction n as [|n IH]; intros p Hp Hn; simpl.
  - assert (p = q) as -> by lia. rewrite bool_decide_eq_true_2 by reflexivity.
    f_equal. lia.
  - case_bool_decide as Heq.
    + rewrite (at_pos_inj th lv p q Hnd) by (lia || exact Heq). f_equal. lia.
    + assert (p <> q) by (intros ->; apply Heq; reflexivity).
      unfold next_pos. rewrite (proj2 (Nat.eqb_neq _ _)) by lia.
      rewrite IH by lia. simpl. f_equal. lia.
Qed.

Lemma fwd_count_wrap (th : Theory) (lv : nat) (tgt : iterator) (p n : nat) :
  (forall p', p <= p' <= length (objects th) -> at_pos th lv p' <> tgt) ->
  p <= length (objects th) -> length (objects th) - p + 1 <= n ->
  fwd_count th lv tgt p n =
    option_map (Nat.add (length (objects th) - p + 1))
      (fwd_count th lv tgt 0 (n - (length (objects th) - p + 1))).
Proof.
  revert p; induction n as [|n IH]; intros p Hne Hp Hn; [lia|]. simpl.
  rewrite bool_decide_eq_false_2 by (apply Hne; lia).
  unfold next_pos. destruct (Nat.eqb_spec p (length (objects th))) as [->|Hlt].
  - rewrite Nat.sub_diag. simpl. rewrite Nat.sub_0_r.
    destruct (fwd_count th lv tgt 0 n); reflexivity.
  - rewrite IH by first [intros p' Hp'; apply Hne; lia | lia].
    replace (S n - (length (objects th) - p + 1)) with (n - (length (objects th) - S p + 1)) by lia.
    destruct (fwd_count th lv tgt 0 _); simpl; [f_equal; lia|reflexivity].
Qed.

(** Going back [k] objects from a reference with [operator-(Reference,
    int)], for [k] at most the reference's position, gives a reference from
    which [operator-(Reference, Reference)] counts [k] steps forward to the
    original one. *)
Theorem ref_distance_minus (ch : Chain) (b : Reference) (th : Theory) (tb pb : nat) (k : Z) :
  ref_theory b = Some tb -> ch !! it_level (ref b) = Some th ->
  NoDup (map fst (objects th)) -> it_position th (it_slot (ref b)) = Some pb ->
  (0 <= k <= Z.of_nat pb)%Z -> (k <= INT_MAX)%Z ->
  exists a, ref_minus ch b k = Some a /\ ref_distance ch a b = Ok k.
Proof.
  intros Htb Hch Hnd Hpb Hk Hmax.
  pose proof (it_position_le _ _ _ Hpb) as Hle.
  set (a := mkReference (Some tb) (mkIterator (it_level (ref b)) (slot_at th (pb - Z.to_nat k)))).
  exists a. split.
  - unfold ref_minus, sub_assign, step_back. destruct (Z.eqb_spec k 0) as [->|Hk0].
    + subst a. rewrite Nat.sub_0_r, (slot_at_position th _ _ Hpb), <- Htb.
      destruct b as [bt [bl bs]]. reflexivity.
    + rewrite Hch, Hpb, back_loop_nonneg by exact Hk. rewrite Htb. reflexivity.
  - unfold ref_distance. subst a. simpl. rewrite Htb, Nat.eqb_refl. simpl.
    rewrite Hch, it_position_slot_at by (exact Hnd || lia).
    rewrite <- (at_pos_position th (ref b) pb Hpb) at 2.
    rewrite fwd_count_reach by (exact Hnd || lia).
    rewrite (proj2 (Z.ltb_ge _ _)) by lia. f_equal. lia.
Qed.

(** [operator-(Reference, Reference)] of two references of the same theory
    where the first lies after the second does not return -1: its loop runs
    forward through [end()] and around the circular list, giving the list's
    length plus one minus the distance between them. *)
Theorem ref_distance_wrap (ch : Chain) (a b : Reference) (th : Theory) (t pa pb : nat) :
  ref_theory a = Some t -> ref_theory b = Some t -> it_level (ref a) = it_level (ref b) ->
  ch !! it_level (ref a) = Some th -> NoDup (map fst (objects th)) ->
  it_position th (it_slot (ref a)) = Some pa -> it_position th (it_slot (ref b)) = Some pb ->
  pb < pa -> (Z.of_nat (length (objects th)) <= INT_MAX)%Z ->
  ref_distance ch a b = Ok (Z.of_nat (length (objects th) + 1 - (pa - pb))).
Proof.
  intros Hta Htb Hlv Hch Hnd Hpa Hpb Hlt Hmax.
  pose proof (it_position_le _ _ _ Hpa) as Hla.
  unfold ref_distance. rewrite Hta, Htb, Nat.eqb_refl. simpl. rewrite Hch, Hpa.
  rewrite <- (at_pos_position th (ref b) pb Hpb), <- Hlv.
  rewrite fwd_count_wrap.
  - rewrite fwd_count_reach by (exact Hnd || lia). simpl.
    rewrite (proj2 (Z.ltb_ge _ _)) by lia. f_equal. f_equal. lia.
  - intros p' Hp' Heq. apply (at_pos_inj th (it_level (ref a)) p' pb Hnd) in Heq; lia.
  - exact Hla.
  - lia.
Qed.

Lemma names_of_app (l1 l2 : list Object) : names_of (l1 ++ l2) = names_of l1 ++ names_of l2.
Proof. unfold names_of. rewrite map_app, List.filter_app. reflexivity. Qed.

Lemma names_of_elem (os : list Object) (n : string) :
  n ∈ names_of os <-> n <> "" /\ exists o, o ∈ os /\ object_name o = n.
Proof.
  unfold names_of. rewrite list_elem_of_In, filter_In, in_map_iff.
  rewrite negb_true_iff, String.eqb_neq. split.
  - intros [(o & Ho & Hin) Hne]. split; [exact Hne|]. exists o.
    split; [apply list_elem_of_In; exact Hin|exact Ho].
  - intros [Hne (o & Hin & Ho)]. split; [|exact Hne]. exists o.
    split; [exact Ho|apply list_elem_of_In; exact Hin].
Qed.

Lemma name_space_names (th : Theory) (n : string) :
  wf_theory th -> is_Some (name_space th !! n) <-> n ∈ names_of (map snd (objects th)).
Proof.
  intros [_ Hns]. rewrite names_of_elem. split.
  - intros [s Hs]. apply Hns in Hs as [Hne (o & Hin & Ho)]. split; [exact Hne|].
    exists o. split; [|exact Ho]. apply list_elem_of_fmap_2' with (x := (s, o)); [exact Hin|reflexivity].
  - intros [Hne (o & Hin & Ho)]. apply list_elem_of_fmap_1 in Hin as ([s o'] & -> & Hin).
    exists s. apply Hns. split; [exact Hne|]. exists o'. split; [exact Hin|exact Ho].
Qed.

Lemma add_object_last (th : Theory) (it : option nat) (o : Object) :
  list_inv th it ->
  add_object th o it =
    match name_space th !! object_name o with
    | Some _ => Err (DuplicateName (object_name o))
    | None => Ok (mkTheory (objects th ++ [(fresh_slot (objects th), o)])
                  (if String.eqb (object_name o) "" then name_space th
                   else <[object_name o := fresh_slot (objects th)]> (name_space th))
                  (parent_object th), fresh_slot (objects th))
    end.
Proof.
  intros (Hwf & _ & Hit & _). unfold add_object.
  destruct (name_space th !! object_name o); [reflexivity|].
  destruct (last (objects th)) as [[ls lo]|] eqn:Hl; simpl in Hit; subst it.
  - apply last_Some in Hl as [l' Hl].
    assert (Hp : position_of ls (objects th) = Some (length l')).
    { apply (position_of_nodup _ _ _ lo (proj1 Hwf)). rewrite Hl.
      apply list_lookup_middle. reflexivity. }
    rewrite Hp. rewrite Hl, take_ge, drop_ge by (rewrite length_app; simpl; lia).
    reflexivity.
  - apply last_None in Hl. rewrite Hl. reflexivity.
Qed.

Lemma add_all_spec (os : list Object) :
  forall th it, list_inv th it ->
  (NoDup (names_of (map snd (objects th) ++ os)) ->
     exists th', add_all th it os = Ok th' /\ map snd (objects th') = map snd (objects th) ++ os /\
                 wf_theory th' /\ parent_object th' = None) /\
  (~ NoDup (names_of (map snd (objects th) ++ os)) ->
     exists n, n <> "" /\ add_all th it os = Err (DuplicateName n)).
Proof.
  induction os as [|o os IH]; intros th it Hinv.
  - rewrite app_nil_r. destruct Hinv as (Hwf & Hpar & _ & Hnd). split.
    + intros _. exists th. split; [reflexivity|]. auto.
    + intros Hn. contradiction.
  - simpl. rewrite (add_object_last th it o Hinv).
    destruct Hinv as (Hwf & Hpar & Hit & Hnd).
    destruct (name_space th !! object_name o) as [s|] eqn:Hn.
    + assert (Hin : object_name o ∈ names_of (map snd (objects th)))
        by (apply name_space_names; [exact Hwf|rewrite Hn; eauto]).
      assert (Hne : object_name o <> "")
        by (intros He; rewrite He, (wf_no_empty_name th Hwf) in Hn; discriminate).
      assert (Hdup : ~ NoDup (names_of (map snd (objects th) ++ o :: os))).
      { rewrite names_of_app. intros Hnd'. apply NoDup_app in Hnd' as (_ & Hdis & _).
        apply (Hdis _ Hin). unfold names_of. simpl.
        rewrite (proj2 (String.eqb_neq _ _) Hne). simpl. apply elem_of_cons. left. reflexivity. }
      split; [intros H; contradiction|]. intros _. exists (object_name o). split; [exact Hne|reflexivity].
    + set (th' := mkTheory (objects th ++ [(fresh_slot (objects th), o)])
                  (if String.eqb (object_name o) "" then name_space th
                   else <[object_name o := fresh_slot (objects th)]> (name_space th))
                  (parent_object th)).
      assert (Hinv' : list_inv th' (Some (fresh_slot (objects th)))).
      { split; [|split; [|split]].
        - apply (add_object_wf th o it th' (fresh_slot (objects th)) Hwf).
          rewrite (add_object_last th it o (conj Hwf (conj Hpar (conj Hit Hnd)))), Hn. reflexivity.
        - exact Hpar.
        - simpl. rewrite last_snoc. reflexivity.
        - simpl. rewrite map_app, names_of_app. apply NoDup_app. split; [exact Hnd|]. split.
          + intros n Hn1 Hn2. apply names_of_elem in Hn2 as [Hne (o' & Ho' & <-)].
            apply list_elem_of_singleton in Ho' as ->.
            assert (Hs : is_Some (name_space th !! object_name o))
              by (apply name_space_names; [exact Hwf|exact Hn1]).
            rewrite Hn in Hs. destruct Hs as [? Hs]. discriminate.
          + unfold names_of. simpl. destruct (String.eqb (object_name o) ""); simpl;
              [constructor|constructor; [apply not_elem_of_nil|constructor]]. }
      assert (Hl : map snd (objects th') ++ os = map snd (objects th) ++ o :: os)
        by (simpl; rewrite map_app, <- app_assoc; reflexivity).
      simpl rbind. destruct (IH th' _ Hinv') as [Hok Herr]. rewrite Hl in Hok, Herr.
      split.
      * intros Hnd'. destruct (Hok Hnd') as (th'' & Hadd & Hmap & Hwf'' & Hpar'').
        exists th''. split; [exact Hadd|]. split; [exact Hmap|]. auto.
      * exact Herr.
Qed.

(** [Theory(std::initializer_list<Object_ptr>)] builds a root theory with
    exactly the given objects in order and a consistent name index when
    their non-empty names are distinct; otherwise it throws a duplicate-name
    error for a non-empty name. *)
Theorem theory_from_list_spec (os : list Object) :
  (NoDup (names_of os) ->
     exists th, theory_from_list os = Ok th /\ map snd (objects th) = os /\
                wf_theory th /\ parent_object th = None) /\
  (~ NoDup (names_of os) ->
     exists n, n <> "" /\ theory_from_list os = Err (DuplicateName n)).
Proof.
  assert (Hinv : list_inv (mkTheory [] ∅ None) None).
  { split; [|split; [reflexivity|split; [reflexivity|constructor]]].
    split; simpl; [constructor|]. intros n s. rewrite lookup_empty. split; [discriminate|].
    intros [_ (o & Hin & _)]. apply not_elem_of_nil in Hin. contradiction. }
  exact (add_all_spec os _ _ Hinv).
Qed.

Lemma build_context_lookup (fuel : nat) (ps : list Node) (args : list Expr) (subst subst' : Context) :
  build_context fuel ps args subst = Ok subst' -> NoDup (map node_id ps) ->
  (forall p, p ∈ ps -> subst !! node_id p = None) ->
  (forall i p, ps !! i = Some p -> subst' !! node_id p = args !! i) /\
  (forall k, k ∉ map node_id ps -> subst' !! k = subst !! k).
Proof.
  revert args subst; induction ps as [|p ps IH]; intros [|a args] subst Hb Hnd Hfree;
    simpl in Hb.
  - injection Hb as <-. split; [intros i p H; discriminate|reflexivity].
  - injection Hb as <-. split; [intros i p H; discriminate|reflexivity].
  - discriminate.
  - simpl in Hnd. apply NoDup_cons in Hnd as [Hnin Hnd].
    destruct (getType a) as [ta|]; [|discriminate].
    destruct (compare_types fuel (Some subst) (node_type p) ta) as [[|]|e]; simpl in Hb;
      try discriminate.
    rewrite (Hfree p) in Hb by (apply elem_of_cons; left; reflexivity).
    destruct (IH args _ Hb Hnd) as [Hin Hout].
    { intros p' Hp'. rewrite lookup_insert_ne.
      - apply Hfree. apply elem_of_cons. right. exact Hp'.
      - intros Heq. apply Hnin. rewrite Heq. apply list_elem_of_In, in_map.
        apply list_elem_of_In. exact Hp'. }
    split.
    + intros [|i] q Hq; simpl in Hq.
      * injection Hq as <-. rewrite Hout by exact Hnin. apply lookup_insert_eq.
      * exact (Hin i q Hq).
    + intros k Hk. rewrite Hout.
      * apply lookup_insert_ne. intros Heq. apply Hk. rewrite <- Heq. apply elem_of_cons. left. reflexivity.
      * intros Hk'. apply Hk. apply elem_of_cons. right. exact Hk'.
Qed.

(** [ProofStep::operator[]] of a proof step built from distinct rule
    parameters returns the argument given for a parameter, and a null
    pointer for a node that is no parameter of the rule. *)
Theorem proofstep_at_spec (fuel : nat) (rule : Rule) (args : list Expr)
    (refs : list Reference) (ps : ProofStep) :
  make_proofstep fuel rule args refs = Ok ps -> NoDup (map node_id (rule_params rule)) ->
  (forall i p, rule_params rule !! i = Some p -> proofstep_at ps p = args !! i) /\
  (forall n, node_id n ∉ map node_id (rule_params rule) -> proofstep_at ps n = None).
Proof.
  intros Hmk Hnd. unfold make_proofstep in Hmk.
  destruct (is_builtin RULE (node_type (rule_node rule))); simpl in Hmk; [|discriminate].
  destruct (build_context fuel (rule_params rule) args ∅) as [subst|e] eqn:Hb; [|discriminate].
  injection Hmk as <-. unfold proofstep_at. simpl.
  destruct (build_context_lookup fuel _ _ _ _ Hb Hnd) as [Hin Hout].
  { intros p _. apply lookup_empty. }
  split; [exact Hin|]. intros n Hn. rewrite Hout by exact Hn. apply lookup_empty.
Qed.

Lemma call_mismatch_none (fuel : nat) (targs : list (option Expr)) (args : list Expr) (i : nat) :
  call_mismatch fuel targs args i = Ok None -> length targs = length args.
Proof.
  revert args i; induction targs as [|[t|] targs IH]; intros [|a args] i H; simpl in H;
    try discriminate; [reflexivity|].
  destruct (getType a) as [ta|]; [|discriminate].
  destruct (compare_types fuel None t ta) as [[|]|e]; simpl in H; try discriminate.
  simpl. f_equal. exact (IH args (S i) H).
Qed.

(** The [LambdaCallExpr] constructor only builds calls of a node of lambda
    type with as many arguments as the type has parameters; the call's type
    is the lambda type's return type. *)
Theorem make_call_built (fuel : nat) (n : Node) (args : list Expr) (c : Expr) :
  make_call fuel n args = Built c ->
  c = LambdaCallExpr n args /\
  exists targs rt, node_type n = LambdaType targs rt /\ length args = length targs /\
                   getType c = Some rt.
Proof.
  unfold make_call. destruct (node_type n) as [| targs rt | | | | | |] eqn:Ht;
    try discriminate.
  destruct (call_mismatch fuel targs args 0) as [[[[i ta] t]|]|e] eqn:Hm; try discriminate.
  intros H. injection H as <-. split; [reflexivity|]. exists targs, rt.
  split; [reflexivity|]. split; [symmetry; exact (call_mismatch_none _ _ _ _ Hm)|].
  simpl. rewrite Ht. reflexivity.
Qed.

Lemma call_mismatch_first (fuel : nat) (ts : list Expr) (args : list Expr) (i0 i : nat)
    (t a ta : Expr) :
  (forall j tj aj, j < i -> ts !! j = Some tj -> args !! j = Some aj ->
     exists ta', getType aj = Some ta' /\ compare_types fuel None tj ta' = Ok true) ->
  ts !! i = Some t -> args !! i = Some a -> getType a = Some ta ->
  compare_types fuel None t ta = Ok false ->
  call_mismatch fuel (map Some ts) args i0 = Ok (Some (i0 + i, ta, t)).
Proof.
  revert ts args i0; induction i as [|i IH]; intros [|t0 ts] [|a0 args] i0 Hpre Ht Ha Hta Hc;
    try discriminate; simpl in Ht, Ha |- *.
  - injection Ht as ->. injection Ha as ->. rewrite Hta, Hc. simpl. rewrite Nat.add_0_r.
    reflexivity.
  - destruct (Hpre 0 t0 a0 ltac:(lia) eq_refl eq_refl) as (ta0 & Hta0 & Hc0).
    rewrite Hta0, Hc0. simpl. rewrite (IH ts args (S i0)); [now replace (i0 + S i) with (S i0 + i) by lia| | | | |];
      try assumption.
    intros j tj aj Hj Htj Haj. exact (Hpre (S j) tj aj ltac:(lia) Htj Haj).
Qed.

(** The [LambdaCallExpr] constructor throws a [TypeException] for the first
    argument whose type differs from the parameter type, naming it as
    [argument i] counted from 1. *)
Theorem make_call_first_mismatch (fuel : nat) (n : Node) (ts : list Expr) (rt : Expr)
    (args : list Expr) (i : nat) (t a ta : Expr) :
  node_type n = LambdaType (map Some ts) rt ->
  (forall j tj aj, j < i -> ts !! j = Some tj -> args !! j = Some aj ->
     exists ta', getType aj = Some ta' /\ compare_types fuel None tj ta' = Ok true) ->
  ts !! i = Some t -> args !! i = Some a -> getType a = Some ta ->
  compare_types fuel None t ta = Ok false ->
  make_call fuel n args =
    Throws (mkTypeException ta (WantExpr t) (String.append "argument " (string_of_nat (S i)))).
Proof.
  intros Hn Hpre Ht Ha Hta Hc. unfold make_call. rewrite Hn.
  rewrite (call_mismatch_first fuel ts args 0 i t a ta Hpre Ht Ha Hta Hc). reflexivity.
Qed.

Lemma call_mismatch_arity (fuel : nat) (ts : list Expr) (args : list Expr) (i : nat) :
  length ts <> length args ->
  (forall j tj aj, ts !! j = Some tj -> args !! j = Some aj ->
     exists ta', getType aj = Some ta' /\ compare_types fuel None tj ta' = Ok true) ->
  exists w, call_mismatch fuel (map Some ts) args i = Err (Undefined w).
Proof.
  revert args i; induction ts as [|t ts IH]; intros [|a args] i Hl Hall; simpl in Hl |- *.
  - lia.
  - eauto.
  - eauto.
  - destruct (Hall 0 t a eq_refl eq_refl) as (ta & Hta & Hc). rewrite Hta, Hc. simpl.
    apply IH; [lia|]. intros j tj aj Htj Haj. exact (Hall (S j) tj aj Htj Haj).
Qed.

(** The [LambdaCallExpr] constructor with a number of arguments different
    from the number of parameters, all common ones well typed, has undefined
    behaviour: [std::mismatch] reads past the end of a shorter argument list,
    and with extra arguments the [TypeException] dereferences the end of the
    parameter list. *)
Theorem make_call_arity (fuel : nat) (n : Node) (ts : list Expr) (rt : Expr) (args : list Expr) :
  node_type n = LambdaType (map Some ts) rt -> length args <> length ts ->
  (forall j tj aj, ts !! j = Some tj -> args !! j = Some aj ->
     exists ta', getType aj = Some ta' /\ compare_types fuel None tj ta' = Ok true) ->
  exists w, make_call fuel n args = Fails (Undefined w).
Proof.
  intros Hn Hl Hall. unfold make_call. rewrite Hn.
  destruct (call_mismatch_arity fuel ts args 0 ltac:(lia) Hall) as [w Hw].
  rewrite Hw. eauto.
Qed.

Lemma is_builtin_statement (t : Expr) : is_builtin STATEMENT t = true <-> t = statement.
Proof.
  split; [|intros ->; reflexivity].
  destruct t as [[| | |]| | | | | | |]; simpl; intros H; try discriminate; reflexivity.
Qed.

Lemma find_non_statement_none (prems : list Expr) (i : nat) :
  find_non_statement prems i = Ok None <-> Forall (fun p => getType p = Some statement) prems.
Proof.
  revert i; induction prems as [|p prems IH]; intros i; simpl.
  - split; [constructor|reflexivity].
  - rewrite Forall_cons. destruct (getType p) as [t|].
    + destruct (is_builtin STATEMENT t) eqn:Hs.
      * apply is_builtin_statement in Hs as ->. rewrite IH. intuition.
      * split; [discriminate|]. intros [Ht _]. injection Ht as ->. discriminate.
    + split; [discriminate|]. intros [Ht _]. discriminate.
Qed.

(** The [DeductionRule] and [EquivalenceRule] constructors succeed exactly
    when all the premises, the conclusion, and both statements respectively
    have type [statement]. *)
Theorem rule_constructors_built (id : nat) (name : string) (params : list Node) :
  (forall prems concl,
     (exists r, make_deduction_rule id name params prems concl = Built r) <->
     Forall (fun p => getType p = Some statement) prems /\ getType concl = Some statement) /\
  (forall s1 s2,
     (exists r, make_equivalence_rule id name params s1 s2 = Built r) <->
     getType s1 = Some statement /\ getType s2 = Some statement).
Proof.
  split.
  - intros prems concl. unfold make_deduction_rule. split.
    + intros [r Hr]. destruct (find_non_statement prems 0) as [[[i t]|]|e] eqn:Hf;
        try discriminate.
      apply find_non_statement_none in Hf. split; [exact Hf|].
      destruct (getType concl) as [t|]; [|discriminate].
      destruct (is_builtin STATEMENT t) eqn:Hs; [|discriminate].
      apply is_builtin_statement in Hs as ->. reflexivity.
    + intros [Hp Hc]. apply (find_non_statement_none prems 0) in Hp. rewrite Hp, Hc.
      simpl. eauto.
  - intros s1 s2. unfold make_equivalence_rule. split.
    + intros [r Hr]. destruct (getType s1) as [t1|]; [|discriminate].
      destruct (is_builtin STATEMENT t1) eqn:H1; simpl in Hr; [|discriminate].
      destruct (getType s2) as [t2|]; [|discriminate].
      destruct (is_builtin STATEMENT t2) eqn:H2; simpl in Hr; [|discriminate].
      apply is_builtin_statement in H1 as ->. apply is_builtin_statement in H2 as ->. auto.
    + intros [H1 H2]. rewrite H1, H2. simpl. eauto.
Qed.

Lemma find_non_statement_first (prems : list Expr) (i0 i : nat) (p t : Expr) :
  (forall j q, j < i -> prems !! j = Some q -> getType q = Some statement) ->
  prems !! i = Some p -> getType p = Some t -> t <> statement ->
  find_non_statement prems i0 = Ok (Some (i0 + i, t)).
Proof.
  revert prems i0; induction i as [|i IH]; intros [|q prems] i0 Hpre Hp Ht Hns;
    try discriminate; simpl in Hp |- *.
  - injection Hp as ->. rewrite Ht.
    destruct (is_builtin STATEMENT t) eqn:Hs; [apply is_builtin_statement in Hs; contradiction|].
    rewrite Nat.add_0_r. reflexivity.
  - rewrite (Hpre 0 q ltac:(lia) eq_refl). simpl.
    rewrite (IH prems (S i0)); [now replace (i0 + S i) with (S i0 + i) by lia| |exact Hp|exact Ht|exact Hns].
    intros j q' Hj Hq'. exact (Hpre (S j) q' ltac:(lia) Hq').
Qed.

(** The [DeductionRule] constructor reports the first premise that is not a
    statement as [premiss number i], counted from 1, before it looks at the
    conclusion. *)
Theorem make_deduction_rule_first (id : nat) (name : string) (params : list Node)
    (prems : list Expr) (concl : Expr) (i : nat) (p t : Expr) :
  (forall j q, j < i -> prems !! j = Some q -> getType q = Some statement) ->
  prems !! i = Some p -> getType p = Some t -> t <> statement ->
  make_deduction_rule id name params prems concl =
    Throws (mkTypeException t (WantExpr statement)
              (String.append "premiss number " (string_of_nat (S i)))).
Proof.
  intros Hpre Hp Ht Hns. unfold make_deduction_rule.
  rewrite (find_non_statement_first prems 0 i p t Hpre Hp Ht Hns). reflexivity.
Qed.

Lemma push_plain (fuel : nat) (e : Expr) (st : SubstState) :
  calls_unbound (substitutions st) e = true ->
  push fuel e st = Ok (tt, {| substitutions := substitutions st;
                              stack := resolve (substitutions st) e :: stack st;
                              subst_stack := None :: subst_stack st;
                              offender := offender st |}).
Proof.
  intros Hc. destruct fuel; destruct e as [v|ta r|n|f args|x|v a b|v x|ps d]; cbn -[lookup]; try reflexivity.
  all: simpl in Hc; unfold unbound_node in Hc.
  all: match goal with |- context [?m !! node_id ?k] =>
         destruct (m !! node_id k); [try discriminate|]; reflexivity end.
Qed.

Lemma pop_plain (st : SubstState) (x : Expr) (stk : list Expr) (ss : list (option (list Node))) :
  subst_stack st = None :: ss -> Forall (fun o => o = None) ss -> stack st = x :: stk ->
  pop st = Ok (tt, {| substitutions := substitutions st; stack := stk; subst_stack := ss;
                      offender := offender st |}).
Proof.
  intros Hss Hall Hst. unfold pop. rewrite Hss.
  assert (Hl : pop_params_loop (substitutions st) ss = (substitutions st, ss))
    by (destruct Hall as [|o ss' Ho _]; [reflexivity|subst o; reflexivity]).
  rewrite Hl, Hst. reflexivity.
Qed.

Lemma resolve_calls (c : Context) (e : Expr) :
  calls_unbound c e = true -> ctx_calls_ok c -> calls_unbound c (resolve c e) = true.
Proof.
  intros He Hc. destruct e; simpl; try assumption.
  destruct (c !! node_id atom) eqn:E; [exact (Hc _ _ E)|exact He].
Qed.

Lemma step_plain (fuel : nat) (t1 e1 : Expr) (st : SubstState) :
  visit_ok fuel t1 -> lambda_free t1 = true -> Forall (fun o => o = None) (subst_stack st) ->
  calls_unbound (substitutions st) e1 = true -> ctx_calls_ok (substitutions st) ->
  exists o st1 st2,
    push fuel e1 st = Ok (tt, st1) /\ visit fuel t1 st1 = Ok (tt, st2) /\
    pop st2 = Ok (tt, with_off st o) /\
    (o = None <-> offender st = None /\
                  matches (substitutions st) (resolve (substitutions st) e1) t1 = true).
Proof.
  intros IH Hlf Hss He Hc.
  destruct (IH Hlf {| substitutions := substitutions st;
                      stack := resolve (substitutions st) e1 :: stack st;
                      subst_stack := None :: subst_stack st;
                      offender := offender st |} (resolve (substitutions st) e1) (stack st) eq_refl)
    as [o [Hv Ho]]; simpl.
  - constructor; [reflexivity|exact Hss].
  - apply resolve_calls; assumption.
  - exact Hc.
  - do 3 eexists. split; [exact (push_plain fuel e1 st He)|]. split; [exact Hv|].
    split; [|exact Ho].
    erewrite pop_plain; [reflexivity|reflexivity|exact Hss|reflexivity].
Qed.

Ltac mism := eexists; split; [reflexivity|simpl; split; [discriminate|intros [_ Hm]; try discriminate]].

Lemma visit_matches (fuel : nat) (t : Expr) : visit_ok fuel t.
Proof.
  induction t as [v|ta r|n|f targs IH|ti IH|v t1 t2 IH1 IH2|v tp IH|ps d IH] using Expr_ind';
    intros Hlf [c stk ss off] x rest Hst Hss Hx Hc; simpl in Hst, Hss, Hx, Hc |- *; subst stk.
  - exists off. split; [reflexivity|simpl; tauto].
  - exists off. split; [reflexivity|simpl; tauto].
  - unfold sbind, top; simpl.
    destruct x as [| |m| | | | |]; try mism.
    destruct (Nat.eqb (node_id m) (node_id n)) eqn:E.
    + exists off. split; [reflexivity|simpl; tauto].
    + mism.
  - unfold sbind, top; simpl.
    destruct x as [| | |g args| | | |]; try mism.
    destruct (Nat.eqb (node_id g) (node_id f)) eqn:E; [|mism].
    simpl in Hx. apply andb_true_iff in Hx as [_ Hargs].
    simpl in Hlf. simpl andb. clear E.
    set (st0 := {| substitutions := c; stack := LambdaCallExpr g args :: rest;
                   subst_stack := ss; offender := off |}).
    change ss with (subst_stack st0) in Hss. change off with (offender st0).
    change c with (substitutions st0) in Hargs, Hc |- *.
    clearbody st0. clear rest g.
    revert Hc Hss Hargs. revert st0 args. induction IH as [|t1 ts H1 Hts IHts]; intros st args Hc Hss Hargs.
    + exists (offender st). split; [destruct st; reflexivity|tauto].
    + destruct args as [|e1 es].
      * exists (offender st). split; [destruct st; reflexivity|tauto].
      * simpl in Hlf, Hargs. apply andb_true_iff in Hlf as [Hl1 Hls].
        apply andb_true_iff in Hargs as [Ha1 Has].
        destruct (step_plain fuel t1 e1 st H1 Hl1 Hss Ha1 Hc) as (o1 & st1 & st2 & Hp & Hv & Hpop & Ho1).
        simpl. rewrite Hp, Hv, Hpop.
        destruct (IHts Hls (with_off st o1) es Hc Hss Has) as [o2 [Hgo Ho2]].
        exists o2. split; [exact Hgo|]. simpl in Ho2. rewrite Ho2, Ho1, andb_true_iff. tauto.
  - unfold sbind, top; simpl.
    destruct x as [| | | |ei| | |]; try mism.
    simpl in Hx, Hlf.
    destruct (step_plain fuel ti ei {| substitutions := c; stack := NegationExpr ei :: rest;
                                        subst_stack := ss; offender := off |} IH Hlf Hss Hx Hc)
      as (o & st1 & st2 & Hp & Hv & Hpop & Ho).
    rewrite Hp, Hv, Hpop. exists o. split; [reflexivity|exact Ho].
  - unfold sbind, top; simpl.
    destruct x as [| | | | |w e1 e2| |]; try mism.
    destruct (bool_decide (w = v)) eqn:Eb; [|mism; simpl in Hm; rewrite Eb in Hm; discriminate].
    simpl in Hx, Hlf. apply andb_true_iff in Hx as [Hx1 Hx2].
    apply andb_true_iff in Hlf as [Hl1 Hl2].
    set (st0 := {| substitutions := c; stack := ConnectiveExpr w e1 e2 :: rest;
                   subst_stack := ss; offender := off |}).
    destruct (step_plain fuel t1 e1 st0 IH1 Hl1 Hss Hx1 Hc)
      as (o1 & st1 & st2 & Hp1 & Hv1 & Hpop1 & Ho1).
    destruct (step_plain fuel t2 e2 (with_off st0 o1) IH2 Hl2 Hss Hx2 Hc)
      as (o2 & st3 & st4 & Hp2 & Hv2 & Hpop2 & Ho2).
    rewrite Hp1, Hv1, Hpop1, Hp2, Hv2, Hpop2. exists o2. split; [reflexivity|].
    unfold st0 in Ho1, Ho2. simpl in Ho1, Ho2. rewrite Ho2, Ho1, !andb_true_iff. tauto.
  - unfold sbind, top; simpl.
    destruct x as [| | | | | |w ep|]; try mism.
    destruct (bool_decide (w = v)) eqn:Eb; [|mism; simpl in Hm; rewrite Eb in Hm; discriminate].
    simpl in Hx, Hlf.
    destruct (step_plain fuel tp ep {| substitutions := c; stack := QuantifierExpr w ep :: rest;
                                        subst_stack := ss; offender := off |} IH Hlf Hss Hx Hc)
      as (o & st1 & st2 & Hp & Hv & Hpop & Ho).
    rewrite Hp, Hv, Hpop. exists o. split; [reflexivity|exact Ho].
  - discriminate.
Qed.


Lemma check_matches_aux (fuel : nat) (e t : Expr) (c : Context) :
  lambda_free t = true -> calls_unbound c e = true -> ctx_calls_ok c ->
  check fuel e t c = Ok (matches c (resolve c e) t).
Proof.
  intros Hlf He Hc. unfold check, sbind.
  rewrite (push_plain fuel e {| substitutions := c; stack := []; subst_stack := [];
                                offender := None |} He).
  destruct (visit_matches fuel t Hlf {| substitutions := c; stack := [resolve c e];
                                        subst_stack := [None]; offender := None |}
              (resolve c e) [] eq_refl) as [o [Hv Ho]]; simpl.
  - constructor; [reflexivity|constructor].
  - apply resolve_calls; assumption.
  - exact Hc.
  - simpl in Hv. rewrite Hv. simpl in Ho.
    erewrite pop_plain; [|reflexivity|constructor|reflexivity]. simpl.
    f_equal. destruct o as [p|]; destruct (matches c (resolve c e) t); try reflexivity.
    + exfalso. destruct Ho as [_ H]. specialize (H (conj eq_refl eq_refl)). discriminate.
    + destruct Ho as [H _]. destruct (H eq_refl) as [_ Hm]. discriminate.
Qed.

Lemma resolve_unbound (c : Context) (e : Expr) : all_unbound c e = true -> resolve c e = e.
Proof.
  destruct e; simpl; try reflexivity. unfold unbound_node.
  destruct (c !! node_id atom); [discriminate|reflexivity].
Qed.

Lemma matches_self (c : Context) (d : Expr) :
  all_unbound c d = true -> lambda_free d = true -> matches c d d = true.
Proof.
  induction d as [v|ta r|n|f args IH|x IH|v a b IHa IHb|v x IH|ps dd IH] using Expr_ind';
    simpl; intros Hu Hl; try reflexivity.
  - apply Nat.eqb_refl.
  - apply andb_true_iff in Hu as [_ Hu]. rewrite Nat.eqb_refl. simpl.
    induction IH as [|a args Ha Hargs IHargs]; [reflexivity|].
    simpl in Hu, Hl. apply andb_true_iff in Hu as [Hu1 Hu2]. apply andb_true_iff in Hl as [Hl1 Hl2].
    rewrite (resolve_unbound c a Hu1), (Ha Hu1 Hl1). exact (IHargs Hu2 Hl2).
  - rewrite (resolve_unbound c x Hu). exact (IH Hu Hl).
  - apply andb_true_iff in Hu as [Hu1 Hu2]. apply andb_true_iff in Hl as [Hl1 Hl2].
    rewrite (bool_decide_eq_true_2 _ eq_refl), (resolve_unbound c a Hu1), (resolve_unbound c b Hu2).
    rewrite (IHa Hu1 Hl1), (IHb Hu2 Hl2). reflexivity.
  - rewrite (bool_decide_eq_true_2 _ eq_refl), (resolve_unbound c x Hu). exact (IH Hu Hl).
  - discriminate.
Qed.

Lemma matches_inst (c : Context) (e : Expr) :
  ctx_closed c -> lambda_free e = true -> calls_unbound c e = true ->
  matches c (resolve c e) (inst c e) = true.
Proof.
  intros Hc.
  induction e as [v|ta r|n|f args IH|x IH|v a b IHa IHb|v x IH|ps dd IH] using Expr_ind';
    simpl; intros Hl Hu; try reflexivity.
  - destruct (c !! node_id n) as [d|] eqn:E.
    + destruct (Hc _ _ E) as [Hd1 Hd2]. exact (matches_self c d Hd2 Hd1).
    + apply Nat.eqb_refl.
  - apply andb_true_iff in Hu as [_ Hu]. rewrite Nat.eqb_refl. simpl.
    induction IH as [|a args Ha Hargs IHargs]; [reflexivity|].
    simpl in Hu, Hl. apply andb_true_iff in Hu as [Hu1 Hu2]. apply andb_true_iff in Hl as [Hl1 Hl2].
    simpl map. cbv beta iota fix. rewrite (Ha Hl1 Hu1). exact (IHargs Hl2 Hu2).
  - exact (IH Hl Hu).
  - apply andb_true_iff in Hu as [Hu1 Hu2]. apply andb_true_iff in Hl as [Hl1 Hl2].
    rewrite (bool_decide_eq_true_2 _ eq_refl), (IHa Hl1 Hu1), (IHb Hl2 Hu2). reflexivity.
  - rewrite (bool_decide_eq_true_2 _ eq_refl). exact (IH Hl Hu).
  - discriminate.
Qed.

Lemma inst_lambda_free (c : Context) (e : Expr) :
  ctx_closed c -> lambda_free e = true -> lambda_free (inst c e) = true.
Proof.
  intros Hc.
  induction e as [v|ta r|n|f args IH|x IH|v a b IHa IHb|v x IH|ps dd IH] using Expr_ind';
    simpl; intros Hl; try reflexivity; try discriminate.
  - destruct (c !! node_id n) as [d|] eqn:E; [exact (proj1 (Hc _ _ E))|reflexivity].
  - induction IH as [|a args Ha Hargs IHargs]; [reflexivity|].
    simpl in Hl |- *. apply andb_true_iff in Hl as [Hl1 Hl2].
    rewrite (Ha Hl1). exact (IHargs Hl2).
  - exact (IH Hl).
  - apply andb_true_iff in Hl as [Hl1 Hl2]. rewrite (IHa Hl1), (IHb Hl2). reflexivity.
  - exact (IH Hl).
Qed.

Lemma all_unbound_calls (c : Context) (e : Expr) : all_unbound c e = true -> calls_unbound c e = true.
Proof.
  induction e as [v|ta r|n|f args IH|x IH|v a b IHa IHb|v x IH|ps dd IH] using Expr_ind';
    simpl; intros Hu; try reflexivity.
  - apply andb_true_iff in Hu as [Hf Hu]. rewrite Hf. simpl.
    induction IH as [|a args Ha Hargs IHargs]; [reflexivity|].
    simpl in Hu |- *. apply andb_true_iff in Hu as [Hu1 Hu2]. rewrite (Ha Hu1). exact (IHargs Hu2).
  - exact (IH Hu).
  - apply andb_true_iff in Hu as [Hu1 Hu2]. rewrite (IHa Hu1), (IHb Hu2). reflexivity.
  - exact (IH Hu).
Qed.

Lemma closed_calls_ok (c : Context) : ctx_closed c -> ctx_calls_ok c.
Proof. intros Hc k d E. apply all_unbound_calls, (Hc _ _ E). Qed.

Lemma check_inst_aux (fuel : nat) (e : Expr) (c : Context) :
  ctx_closed c -> lambda_free e = true -> calls_unbound c e = true ->
  check fuel e (inst c e) c = Ok true.
Proof.
  intros Hc Hl Hu.
  rewrite (check_matches_aux fuel e (inst c e) c (inst_lambda_free c e Hc Hl) Hu (closed_calls_ok c Hc)).
  rewrite (matches_inst c e Hc Hl Hu). reflexivity.
Qed.

Lemma check_ok_bool (fuel : nat) (e t : Expr) (c : Context) :
  ctx_closed c -> tmpl_ok c e -> lambda_free t = true -> exists b, check fuel e t c = Ok b.
Proof.
  intros Hc [_ Hu] Hl. eexists. exact (check_matches_aux fuel e t c Hl Hu (closed_calls_ok c Hc)).
Qed.

(** [Rule::validate] accepts instances of lambda-free templates: a
    tautology proves the instance of its template; an equivalence rule
    proves the instance of either statement from the instance of the other;
    a deduction rule proves the instance of its conclusion from references
    to the instances of its premises, in order. *)
Theorem validate_inst (fuel : nat) (ch : Chain) (r : Rule) (c : Context) :
  ctx_closed c ->
  (forall s, rule_body r = Tautology s -> tmpl_ok c s ->
     validate fuel ch r c [] (inst c s) = Ok true) /\
  (forall s1 s2 ref, rule_body r = EquivalenceRule s1 s2 -> tmpl_ok c s1 -> tmpl_ok c s2 ->
     (premise_expr ch ref = Ok (inst c s1) -> validate fuel ch r c [ref] (inst c s2) = Ok true) /\
     (premise_expr ch ref = Ok (inst c s2) -> validate fuel ch r c [ref] (inst c s1) = Ok true)) /\
  (forall prems concl refs, rule_body r = DeductionRule prems concl ->
     Forall (tmpl_ok c) (concl :: prems) ->
     Forall2 (fun p ref => premise_expr ch ref = Ok (inst c p)) prems refs ->
     validate fuel ch r c refs (inst c concl) = Ok true).
Proof.
  intros Hc. split; [|split].
  - intros s Hr [Hl Hu]. unfold validate. rewrite Hr. simpl. exact (check_inst_aux fuel s c Hc Hl Hu).
  - intros s1 s2 ref Hr [Hl1 Hu1] [Hl2 Hu2]. split; intros Hp; unfold validate; rewrite Hr; simpl;
      rewrite Hp; simpl.
    + rewrite (check_inst_aux fuel s1 c Hc Hl1 Hu1), (check_inst_aux fuel s2 c Hc Hl2 Hu2). reflexivity.
    + destruct (check_ok_bool fuel s1 (inst c s2) c Hc (conj Hl1 Hu1) (inst_lambda_free c s2 Hc Hl2))
        as [[|] E]; rewrite E; simpl.
      * destruct (check_ok_bool fuel s2 (inst c s1) c Hc (conj Hl2 Hu2) (inst_lambda_free c s1 Hc Hl1))
          as [[|] E2]; rewrite E2; simpl; [reflexivity|];
        rewrite (check_inst_aux fuel s1 c Hc Hl1 Hu1), (check_inst_aux fuel s2 c Hc Hl2 Hu2); reflexivity.
      * rewrite (check_inst_aux fuel s1 c Hc Hl1 Hu1), (check_inst_aux fuel s2 c Hc Hl2 Hu2). reflexivity.
  - intros prems concl refs Hr Hall H2. inversion Hall as [|? ? [Hl Hu] Hps]; subst.
    unfold validate. rewrite Hr.
    rewrite (Forall2_length _ _ _ H2), Nat.eqb_refl. simpl.
    assert (Hm : premisses_match fuel ch c prems refs = Ok true).
    { clear Hr Hall. induction H2 as [|p ref ps rs Hp H2 IH]; [reflexivity|].
      inversion Hps as [|? ? [Hlp Hup] Hps']; subst. simpl. rewrite Hp. simpl.
      rewrite (check_inst_aux fuel p c Hc Hlp Hup). exact (IH Hps'). }
    rewrite Hm. simpl. exact (check_inst_aux fuel concl c Hc Hl Hu).
Qed.

(** Writing a non-negative [int] with [stream << n] and reading it back
    with the [strtol]-like [parse_int] of the descriptor parser gives the
    number again, as long as it fits in an [int]. *)
Theorem parse_int_string_of_nat (n : nat) :
  (Z.of_nat n <= INT_MAX)%Z -> parse_int (string_of_nat n) = Z.of_nat n.
Proof. exact (parse_int_of_nat n). Qed.

(** [Substitution::check] on a target without lambdas, for a template
    whose calls and whose context's substitutes call no substituted node:
    it raises no error, and it returns true exactly when the target matches
    the template structurally, each substituted atom of the template being
    replaced by its substitute (call arguments compared up to the shorter
    list, a type in the target matching anything). *)
Theorem check_matches (fuel : nat) (e t : Expr) (c : Context) :
  lambda_free t = true -> calls_unbound c e = true -> ctx_calls_ok c ->
  check fuel e t c = Ok (matches c (resolve c e) t).
Proof. exact (check_matches_aux fuel e t c). Qed.

(** [Substitution::check] accepts every instance of a lambda-free
    template: substituting the context's expressions for the template's
    parameters gives a target that is reported as matching, when the
    substitutes are lambda-free and mention no substituted node and the
    template calls no substituted node. *)
Theorem check_inst (fuel : nat) (e : Expr) (c : Context) :
  ctx_closed c -> lambda_free e = true -> calls_unbound c e = true ->
  check fuel e (inst c e) c = Ok true.
Proof. exact (check_inst_aux fuel e c). Qed.

Lemma root_wf : wf_theory Scenario.root.
Proof.
  split; [apply (bool_decide_unpack _); vm_compute; reflexivity|].
  intros n s. unfold Scenario.root; simpl. split.
  - intros H. apply lookup_insert_Some in H as [[<- <-]|[Hne H]].
    + split; [discriminate|]. exists (ONode Scenario.fritz None).
      split; [left|reflexivity].
    + apply lookup_singleton_Some in H as [<- <-].
      split; [discriminate|]. exists (ONode Scenario.y None).
      split; [right; left|reflexivity].
  - intros [Hne (o & Hin & <-)].
    repeat (apply elem_of_cons in Hin as [Hin|Hin]; [injection Hin as -> ->; reflexivity|]).
    apply not_elem_of_nil in Hin. contradiction.
Qed.
Lemma parse_int_string_of_nat_witness : parse_int (string_of_nat 42) = 42%Z.
Proof. apply (parse_int_string_of_nat 42). unfold INT_MAX; lia. Defined.

Lemma get_description_this_witness :
  get_description [Scenario.ponens_theory []] (Some 3)
    (mkReference None (mkIterator 0 (Some 1))) = Ok "this~2" /\
  parse_reference [Scenario.ponens_theory []] (Some 3) "this~2" =
    Some (mkReference (Some 0) (mkIterator 0 (Some 1))).
Proof.
  exact (get_description_this [Scenario.ponens_theory []] (Scenario.ponens_theory []) 3 1 None
           (OStatement (mkNode 40 statement "") (AtomicExpr Scenario.p) None) 2 0
           eq_refl (ltac:(apply (bool_decide_unpack _); vm_compute; reflexivity))
           eq_refl eq_refl eq_refl (ltac:(lia)) (ltac:(unfold INT_MAX; lia))).
Defined.

Lemma get_description_parent_witness :
  get_description [mkTheory [(1, Scenario.axiom_p)] ∅ (Some 3); Scenario.ponens_theory []] (Some 1)
    (mkReference None (mkIterator 1 (Some 1))) = Ok "parent~2" /\
  parse_reference [mkTheory [(1, Scenario.axiom_p)] ∅ (Some 3); Scenario.ponens_theory []] (Some 1)
    "parent~2" = Some (mkReference (Some 1) (mkIterator 1 (Some 1))).
Proof.
  exact (get_description_parent (mkTheory [(1, Scenario.axiom_p)] ∅ (Some 3))
           (Scenario.ponens_theory []) [] 1 3 1 None
           (OStatement (mkNode 40 statement "") (AtomicExpr Scenario.p) None) 0 2 0
           eq_refl eq_refl (ltac:(apply (bool_decide_unpack _); vm_compute; reflexivity))
           eq_refl eq_refl eq_refl (ltac:(lia)) (ltac:(unfold INT_MAX; lia))).
Defined.

Lemma get_description_forward_witness :
  get_description [Scenario.ponens_theory []] (Some 1)
    (mkReference None (mkIterator 0 (Some 3))) = Ok "this~1" /\
  parse_reference [Scenario.ponens_theory []] (Some 1) "this~1" =
    Some (mkReference (Some 0) (mkIterator 0 None)).
Proof.
  exact (get_description_forward (Scenario.ponens_theory []) 1 3 None
           (OStatement (mkNode 42 statement "") (AtomicExpr Scenario.q)
              (Some (mkProofStep Scenario.ponens Scenario.ctx_pq []))) 0 2
           (ltac:(apply (bool_decide_unpack _); vm_compute; reflexivity))
           eq_refl eq_refl eq_refl (ltac:(lia)) (ltac:(unfold INT_MAX; lia))).
Defined.

Lemma get_description_name_witness :
  get_description [Scenario.root] None (mkReference None (mkIterator 0 (Some 1))) = Ok "fritz" /\
  parse_reference [Scenario.root] None "fritz" = Some (mkReference None (mkIterator 0 (Some 1))).
Proof.
  exact (get_description_name [Scenario.root] None (mkReference None (mkIterator 0 (Some 1)))
           Scenario.root (ONode Scenario.fritz None) eq_refl root_wf eq_refl
           (ltac:(discriminate)) (ltac:(intros k th' Hk; simpl in Hk; lia))
           eq_refl (ltac:(discriminate)) (ltac:(discriminate)) eq_refl).
Defined.

Lemma ref_distance_minus_witness :
  exists a, ref_minus [Scenario.ponens_theory []] (Scenario.ref_at 3) 2 = Some a /\
            ref_distance [Scenario.ponens_theory []] a (Scenario.ref_at 3) = Ok 2%Z.
Proof.
  apply (ref_distance_minus [Scenario.ponens_theory []] (Scenario.ref_at 3)
           (Scenario.ponens_theory []) 0 2 2); try reflexivity.
  - apply (bool_decide_unpack _); vm_compute; reflexivity.
  - lia.
  - unfold INT_MAX; lia.
Defined.

Lemma ref_distance_wrap_witness :
  ref_distance [Scenario.ponens_theory []] (Scenario.ref_at 3) (Scenario.ref_at 1) = Ok 2%Z.
Proof.
  apply (ref_distance_wrap [Scenario.ponens_theory []] (Scenario.ref_at 3) (Scenario.ref_at 1)
           (Scenario.ponens_theory []) 0 2 0); try reflexivity.
  - apply (bool_decide_unpack _); vm_compute; reflexivity.
  - lia.
  - simpl. unfold INT_MAX; lia.
Defined.

Lemma theory_from_list_spec_witness :
  NoDup (names_of [ONode Scenario.fritz None; ONode Scenario.y None]) /\
  exists th, theory_from_list [ONode Scenario.fritz None; ONode Scenario.y None] = Ok th /\
             map snd (objects th) = [ONode Scenario.fritz None; ONode Scenario.y None] /\
             wf_theory th /\ parent_object th = None.
Proof.
  assert (H : NoDup (names_of [ONode Scenario.fritz None; ONode Scenario.y None]))
    by (apply (bool_decide_unpack _); vm_compute; reflexivity).
  split; [exact H|exact (proj1 (theory_from_list_spec _) H)].
Defined.

Lemma proofstep_at_spec_witness :
  make_proofstep 5 Scenario.ponens [AtomicExpr Scenario.p; AtomicExpr Scenario.q] [] =
    Ok (mkProofStep Scenario.ponens Scenario.ctx_pq []) /\
  proofstep_at (mkProofStep Scenario.ponens Scenario.ctx_pq []) Scenario.b =
    Some (AtomicExpr Scenario.q).
Proof.
  assert (H : make_proofstep 5 Scenario.ponens [AtomicExpr Scenario.p; AtomicExpr Scenario.q] [] =
                Ok (mkProofStep Scenario.ponens Scenario.ctx_pq [])) by (vm_compute; reflexivity).
  split; [exact H|].
  exact (proj1 (proofstep_at_spec 5 Scenario.ponens _ _ _ H
                  (ltac:(apply (bool_decide_unpack _); vm_compute; reflexivity))) 1 Scenario.b eq_refl).
Defined.

Lemma make_call_built_witness :
  make_call 5 Scenario.P [AtomicExpr Scenario.fritz] =
    Built (LambdaCallExpr Scenario.P [AtomicExpr Scenario.fritz]) /\
  getType (LambdaCallExpr Scenario.P [AtomicExpr Scenario.fritz]) = Some statement.
Proof.
  assert (H : make_call 5 Scenario.P [AtomicExpr Scenario.fritz] =
                Built (LambdaCallExpr Scenario.P [AtomicExpr Scenario.fritz])) by (vm_compute; reflexivity).
  split; [exact H|].
  destruct (make_call_built 5 Scenario.P [AtomicExpr Scenario.fritz] _ H)
    as [_ (targs & rt & Ht & _ & Hg)].
  rewrite Hg. injection Ht as _ <-. reflexivity.
Defined.

Lemma make_call_first_mismatch_witness :
  make_call 5 Scenario.P [AtomicExpr Scenario.p] =
    Throws (mkTypeException statement (WantExpr (AtomicExpr Scenario.person)) "argument 1").
Proof.
  apply (make_call_first_mismatch 5 Scenario.P [AtomicExpr Scenario.person] statement
           [AtomicExpr Scenario.p] 0 (AtomicExpr Scenario.person) (AtomicExpr Scenario.p) statement);
    try reflexivity.
  intros j tj aj Hj. lia.
Defined.

Lemma make_call_arity_witness :
  exists w, make_call 5 Scenario.P [] = Fails (Undefined w).
Proof.
  apply (make_call_arity 5 Scenario.P [AtomicExpr Scenario.person] statement []).
  - reflexivity.
  - simpl. lia.
  - intros j tj aj _ Ha. simpl in Ha. discriminate.
Defined.

Lemma rule_constructors_built_witness :
  exists r, make_deduction_rule 30 "ponens" [Scenario.a; Scenario.b]
              [Scenario.impl (AtomicExpr Scenario.a) (AtomicExpr Scenario.b); AtomicExpr Scenario.a]
              (AtomicExpr Scenario.b) = Built r.
Proof.
  apply (proj1 (rule_constructors_built 30 "ponens" [Scenario.a; Scenario.b])).
  split; [repeat constructor|reflexivity].
Defined.

Lemma make_deduction_rule_first_witness :
  make_deduction_rule 30 "r" [] [AtomicExpr Scenario.fritz] (AtomicExpr Scenario.b) =
    Throws (mkTypeException (AtomicExpr Scenario.person) (WantExpr statement) "premiss number 1").
Proof.
  apply (make_deduction_rule_first 30 "r" [] [AtomicExpr Scenario.fritz] (AtomicExpr Scenario.b) 0
           (AtomicExpr Scenario.fritz)); try reflexivity.
  - intros j q Hj. lia.
  - discriminate.
Defined.

Lemma check_inst_witness :
  check 5 (Scenario.impl (AtomicExpr Scenario.a) (AtomicExpr Scenario.b))
    (Scenario.impl (AtomicExpr Scenario.p) (AtomicExpr Scenario.q)) Scenario.ctx_pq = Ok true.
Proof.
  exact (check_inst 5 (Scenario.impl (AtomicExpr Scenario.a) (AtomicExpr Scenario.b)) Scenario.ctx_pq
           (ltac:(apply (bool_decide_unpack _); vm_compute; reflexivity)) eq_refl eq_refl).
Defined.

Lemma validate_inst_witness :
  validate 5 [Scenario.ponens_theory []] Scenario.ponens Scenario.ctx_pq
    [Scenario.ref_at 2; Scenario.ref_at 1] (AtomicExpr Scenario.q) = Ok true.
Proof.
  assert (Hc : ctx_closed Scenario.ctx_pq) by (apply (bool_decide_unpack _); vm_compute; reflexivity).
  apply (proj2 (proj2 (validate_inst 5 [Scenario.ponens_theory []] Scenario.ponens Scenario.ctx_pq Hc))
           _ (AtomicExpr Scenario.b) _ eq_refl).
  - repeat constructor.
  - repeat constructor.
Defined.

Lemma check_matches_witness :
  lambda_free (Scenario.impl (AtomicExpr Scenario.q) (AtomicExpr Scenario.q)) = true /\
  calls_unbound Scenario.ctx_pq (Scenario.impl (AtomicExpr Scenario.a) (AtomicExpr Scenario.b)) = true /\
  ctx_calls_ok Scenario.ctx_pq /\
  check 5 (Scenario.impl (AtomicExpr Scenario.a) (AtomicExpr Scenario.b))
    (Scenario.impl (AtomicExpr Scenario.q) (AtomicExpr Scenario.q)) Scenario.ctx_pq =
  Ok (matches Scenario.ctx_pq (resolve Scenario.ctx_pq
        (Scenario.impl (AtomicExpr Scenario.a) (AtomicExpr Scenario.b)))
        (Scenario.impl (AtomicExpr Scenario.q) (AtomicExpr Scenario.q))).
Proof.
  assert (Hc : ctx_calls_ok Scenario.ctx_pq) by (apply (bool_decide_unpack _); vm_compute; reflexivity).
  split; [reflexivity|]. split; [reflexivity|]. split; [exact Hc|].
  apply check_matches; [reflexivity|reflexivity|exact Hc].
Defined.
